(** * Clawrrency: canonical hashing, ledger engine, identity registry
      and PBFT validator

    A shallow embedding of the TypeScript sources

    - [packages/core/src/crypto/index.ts]   (canonicalJson, hashData, hashTransaction),
    - [packages/core/src/economy]           (STAKE_REQUIREMENTS, validateEconomicConstraints),
    - [packages/ledger/src/ledger.ts]       (InMemoryLedger),
    - [packages/identity]                   (IdentityManager),
    - [packages/openclaw]                   (SkillMarketplace.purchaseSkill),
    - [packages/validator]                  (PBFTValidator),

    followed by the properties established about them.

    Conventions.  JavaScript [number]s that hold shells, nonces, counters and
    millisecond timestamps are integers and are modelled by [Z]; reputation
    scores are fractional and are modelled by [Q].  JavaScript strings are
    modelled by [string].  Plain objects used as dictionaries
    ([Record<string, T>]) and [Map]s are [gmap string T]; a [Set<string>] is a
    [gset string].  Every [async] method is modelled as one atomic state
    transformer; [Date.now()] is an explicit argument [now] of the method that
    reads the clock.  SHA-256 and Ed25519 are not re-implemented: they are the
    operations of the class [Crypto].

    A plain object answers a lookup at the name of a property it inherits
    from [Object.prototype] even when it stores nothing there.  The ledger is
    modelled with this behaviour for the account and the recipient of a
    transaction ([inherited], [accountExists], [applyTransaction]), and a
    call that is left by an exception ends with the outcome [threw].  The
    identity registry, the marketplace and the history index are read at
    stored keys and at keys that name no inherited property; the statements
    about them say so where it matters. *)

From Stdlib Require Import ZArith QArith String Ascii List Lia.
From Stdlib Require OrderedTypeEx.
From stdpp Require Import base option list gmap strings sorting fin_maps pretty.

Local Open Scope Z_scope.
Local Open Scope string_scope.

(** * Part I — the model *)

(** ** JSON values *)

(** A JavaScript value as far as [JSON.stringify] distinguishes them.  The
    properties of an object are listed in the object's own enumeration
    order. *)
#[warnings="-register-all"]
Inductive json : Type :=
  | JUndefined
  | JNull
  | JBool (b : bool)
  | JNumber (n : Z)
  | JString (s : string)
  | JArray (items : list json)
  | JObject (props : list (string * json)).

(** [value[k]] on an object. *)
Fixpoint object_get (k : string) (props : list (string * json)) : json :=
  match props with
  | [] => JUndefined
  | (k', v) :: rest => if String.eqb k' k then v else object_get k rest
  end.

(** *** [JSON.stringify] without a replacer *)

Definition dquote : ascii := "034"%char.
Definition backslash : ascii := "092"%char.

Definition hex_digit (n : N) : ascii :=
  match n with
  | 0 => "0" | 1 => "1" | 2 => "2" | 3 => "3" | 4 => "4" | 5 => "5"
  | 6 => "6" | 7 => "7" | 8 => "8" | 9 => "9" | 10 => "a" | 11 => "b"
  | 12 => "c" | 13 => "d" | 14 => "e" | _ => "f"
  end%N%char.

(** QuoteJSONString, one code unit at a time. *)
Definition escape_char (c : ascii) : string :=
  if Ascii.eqb c dquote then String backslash (String dquote "")
  else if Ascii.eqb c backslash then String backslash (String backslash "")
  else if Ascii.eqb c "008" then "\b"
  else if Ascii.eqb c "009" then "\t"
  else if Ascii.eqb c "010" then "\n"
  else if Ascii.eqb c "012" then "\f"
  else if Ascii.eqb c "013" then "\r"
  else if (N_of_ascii c <? 32)%N then
    "\u00" ++ String (hex_digit (N_of_ascii c / 16)) (String (hex_digit (N_of_ascii c mod 16)) "")
  else String c "".

Fixpoint escape_string (s : string) : string :=
  match s with
  | EmptyString => ""
  | String c rest => escape_char c ++ escape_string rest
  end.

Definition json_quote (s : string) : string :=
  String dquote (escape_string s ++ String dquote "").

(** [None] is JavaScript's [undefined]: a property whose value serializes to
    [undefined] is left out of its object, and an array element that does is
    written [null].  Numbers are the integers the protocol uses, which
    JavaScript prints in plain decimal. *)
Fixpoint stringify (v : json) : option string :=
  match v with
  | JUndefined => None
  | JNull => Some "null"
  | JBool b => Some (if b then "true" else "false")
  | JNumber n => Some (pretty n)
  | JString s => Some (json_quote s)
  | JArray items =>
      Some ("[" ++ String.concat "," (map (λ item, default "null" (stringify item)) items) ++ "]")
  | JObject props =>
      Some ("{" ++ String.concat ","
                     (omap (λ kv, (λ s, json_quote (fst kv) ++ ":" ++ s) <$> stringify (snd kv)) props)
                ++ "}")
  end.

(** *** The replacer of [canonicalJson] *)

(** The default comparison of [Array.prototype.sort]: code units,
    lexicographically. *)
Definition string_le (a b : string) : Prop := String.leb a b.

#[global] Instance string_le_dec : RelDecision string_le := λ a b, Is_true_dec (String.leb a b).

Definition is_digit (c : ascii) : bool :=
  ((48 <=? N_of_ascii c) && (N_of_ascii c <=? 57))%N.

Fixpoint all_digits (s : string) : bool :=
  match s with
  | EmptyString => true
  | String c rest => is_digit c && all_digits rest
  end.

Fixpoint digits_value (acc : N) (s : string) : N :=
  match s with
  | EmptyString => acc
  | String c rest => digits_value (10 * acc + (N_of_ascii c - 48)) rest
  end.

(** A property key that is an array index: a canonical decimal numeral below
    [2^32 - 1]. *)
Definition is_array_index (k : string) : bool :=
  match k with
  | EmptyString => false
  | String c rest =>
      all_digits k && (negb (Ascii.eqb c "0") || String.eqb rest "")
      && (digits_value 0 k <=? 4294967294)%N
  end.

Definition index_le (a b : string) : Prop := (digits_value 0 a ≤ digits_value 0 b)%N.

#[global] Instance index_le_dec : RelDecision index_le := λ a b, decide (digits_value 0 a ≤ digits_value 0 b)%N.

(** The order in which an ordinary object enumerates its own keys after they
    were assigned in the order [assigned]: array indices first, in ascending
    numeric order, then the other keys in assignment order. *)
Definition own_property_keys (assigned : list string) : list string :=
  merge_sort index_le (filter (λ k, is_array_index k = true) assigned)
  ++ filter (λ k, is_array_index k ≠ true) assigned.

(** The replacer: for a non-null, non-array object,
    [Object.keys(value).sort().reduce((sorted, k) => { sorted[k] = value[k]; return sorted }, {})].
    The assignment [sorted["__proto__"] = ...] on a fresh object literal goes
    to the prototype setter and creates no own property. *)
Definition replacer (v : json) : json :=
  match v with
  | JObject props =>
      let sorted_keys := merge_sort string_le (map fst props) in
      let assigned := filter (λ k, k ≠ "__proto__") sorted_keys in
      JObject (map (λ k, (k, object_get k props)) (own_property_keys assigned))
  | _ => v
  end.

(** [JSON.stringify(obj, replacer)] passes every value it is about to
    serialize through the replacer, at every depth.  The replacer only looks
    at keys, so rebuilding the children first gives the same value as
    rebuilding them after their parent. *)
Fixpoint sort_object_keys (v : json) : json :=
  match v with
  | JArray items => JArray (map sort_object_keys items)
  | JObject props => replacer (JObject (map (λ kv, (fst kv, sort_object_keys (snd kv))) props))
  | _ => v
  end.

Definition canonicalJson (obj : json) : option string :=
  stringify (sort_object_keys obj).

(** ** Cryptographic primitives *)

(** [sha256_hex bytes] is [bytesToHex(sha256(bytes))]; [signMessage] and
    [verifySignature] are the functions of that name in the crypto module
    (Ed25519 over the UTF-8 bytes of the message, keys and signatures in
    hex; [verifySignature] answers [false] where the library throws). *)
Class Crypto := {
  sha256_hex : string → string;
  signMessage : string → string → string;
  verifySignature : string → string → string → bool;
}.

(** The argument of [hashData]: [string | Uint8Array | object]. *)
Inductive HashInput :=
  | HString (s : string)
  | HBytes (bytes : string)
  | HObject (obj : json).

Definition hashData `{Crypto} (data : HashInput) : string :=
  match data with
  | HString s => sha256_hex s
  | HBytes bytes => sha256_hex bytes
  | HObject obj => sha256_hex (default "" (canonicalJson obj))
  end.

(** ** Core types *)

Inductive TransactionType :=
  | transfer | mint | burn | stake | skill_create | skill_purchase.

#[global] Instance TransactionType_eq_dec : EqDecision TransactionType.
Proof. solve_decision. Defined.

Definition type_name (t : TransactionType) : string :=
  match t with
  | transfer => "transfer" | mint => "mint" | burn => "burn" | stake => "stake"
  | skill_create => "skill_create" | skill_purchase => "skill_purchase"
  end.

(** [interface Transaction]; the optional fields [to] and [data] are
    [None] when absent. *)
Record Transaction := {
  tx_version : Z;
  tx_type : TransactionType;
  tx_from : string;
  tx_to : option string;
  tx_amount : Z;
  tx_nonce : Z;
  tx_timestamp : Z;
  tx_data : option json;
  tx_signature : string;
}.

(** [interface Account], with [updated_at] of the ledger's [StoredAccount]. *)
Record StoredAccount := {
  public_key : string;
  balance : Z;
  nonce : Z;
  reputation : Q;
  created_at : Z;
  last_active : Z;
  stake_locked : Z;
  stake_unlock_at : option Z;
  updated_at : Z;
}.

(** How a call ends: with the object [{ success: boolean; error?: string }]
    it returns, or with the exception that leaves it instead; then nothing
    is returned, [success] is [false] and [exception] names the error. *)
Record Outcome := { success : bool; error : option string; exception : option string }.

Definition ok : Outcome := {| success := true; error := None; exception := None |}.
Definition failed (msg : string) : Outcome :=
  {| success := false; error := Some msg; exception := None |}.
Definition threw (name : string) : Outcome :=
  {| success := false; error := None; exception := Some name |}.

(** The properties every plain object inherits from [Object.prototype].
    On a dictionary [d] that has no own property [k], [d[k]] is one of the
    built-in functions (or the prototype itself) for these keys, hence
    truthy, and [undefined] for every other key. *)
Definition prototype_keys : list string :=
  ["constructor"; "__proto__"; "hasOwnProperty"; "isPrototypeOf"; "propertyIsEnumerable";
   "toLocaleString"; "toString"; "valueOf"; "__defineGetter__"; "__defineSetter__";
   "__lookupGetter__"; "__lookupSetter__"].

Definition inherited (k : string) : bool := bool_decide (k ∈ prototype_keys).

(** Truthiness of a [string | undefined], as in [tx.to && ...] and
    [attestation ? ... : ...]. *)
Definition truthy (s : option string) : bool :=
  match s with
  | Some s => negb (String.eqb s "")
  | None => false
  end.

Definition json_of_opt_string (s : option string) : json :=
  match s with Some s => JString s | None => JUndefined end.

(** [hashTransaction]: the hash of the object literal it builds, which leaves
    the signature out. *)
Definition hashTransaction `{Crypto} (tx : Transaction) : string :=
  hashData (HObject (JObject [
    ("version", JNumber (tx_version tx));
    ("type", JString (type_name (tx_type tx)));
    ("from", JString (tx_from tx));
    ("to", json_of_opt_string (tx_to tx));
    ("amount", JNumber (tx_amount tx));
    ("nonce", JNumber (tx_nonce tx));
    ("timestamp", JNumber (tx_timestamp tx));
    ("data", default JUndefined (tx_data tx))])).

Definition verifyTransactionSignature `{Crypto} (tx : Transaction) : bool :=
  verifySignature (hashTransaction tx) (tx_signature tx) (tx_from tx).

Definition signTransaction `{Crypto} (tx : Transaction) (private_key : string) : string :=
  signMessage (hashTransaction tx) private_key.

(** ** Economic rules *)

(** [DEFAULT_CURRENCY_CONFIG.burning.transaction_fee]. *)
Definition transaction_fee : Z := 1.

Definition MAX_SAFE_INTEGER : Z := 2 ^ 53 - 1.

(** [STAKE_REQUIREMENTS]. *)
Definition registration : Z := 50.
Definition registration_lock_days : Z := 30.
Definition attestation_reduction : Z := 25.
Definition minimum_reputation_for_attestation : Q := inject_Z 100.

(** [validateEconomicConstraints(transaction, sender_balance)]: [inl msg]
    is [{ valid: false, error: msg }], [inr tt] is [{ valid: true }]. *)
Definition validateEconomicConstraints (transaction : Transaction) (sender_balance : Z)
  : string + unit :=
  if decide (tx_amount transaction > MAX_SAFE_INTEGER) then inl "Amount too large"
  else if decide (tx_amount transaction < 0) then inl "Negative amount not allowed"
  else if decide (tx_amount transaction = 0 ∧ tx_type transaction = transfer)
       then inl "Zero amount transfer not allowed"
  else if decide (sender_balance < tx_amount transaction + transaction_fee)
       then inl "Insufficient balance"
  else inr tt.

(** ** Ledger engine *)

(** [StoredTransaction extends Transaction]. *)
Record StoredTransaction := {
  stored_tx : Transaction;
  stored_hash : string;
  stored_block_height : Z;
  applied_at : Z;
}.

Record LedgerState := {
  ledger_version : Z;
  block_height : Z;
  accounts : gmap string StoredAccount;
  transactions : gmap string StoredTransaction;
  account_transactions : gmap string (list string);
}.

(** The state set up by the constructor. *)
Definition empty_ledger : LedgerState :=
  {| ledger_version := 1; block_height := 0; accounts := ∅; transactions := ∅;
     account_transactions := ∅ |}.

Definition getBalance (pk : string) (st : LedgerState) : Z :=
  match accounts st !! pk with
  | Some account => balance account
  | None => 0
  end.

Definition getAccount (pk : string) (st : LedgerState) : option StoredAccount :=
  accounts st !! pk.

(** [createAccount]: [None] is the thrown ['Account already exists'], which
    an inherited key raises like an own one ([accounts[public_key]] is
    truthy for both). *)
Definition createAccount (now : Z) (pk : string) (initial_balance : Z) (st : LedgerState)
  : option LedgerState :=
  match accounts st !! pk with
  | Some _ => None
  | None =>
    if inherited pk then None else
      let account :=
        {| public_key := pk; balance := initial_balance; nonce := 0; reputation := inject_Z 0;
           created_at := now; last_active := now; stake_locked := 0; stake_unlock_at := None;
           updated_at := now |} in
      Some {| ledger_version := ledger_version st; block_height := block_height st;
              accounts := <[pk := account]> (accounts st);
              transactions := transactions st;
              account_transactions := <[pk := []]> (account_transactions st) |}
  end.

(** Field updates of the account objects held in [state.accounts].  Sender
    and recipient are references into that map, so each assignment of the
    source is an [alter] at the key of the object it mutates; when [tx.to]
    equals [tx.from] the two references are one object. *)
Definition add_balance (delta : Z) (a : StoredAccount) : StoredAccount :=
  {| public_key := public_key a; balance := balance a + delta; nonce := nonce a;
     reputation := reputation a; created_at := created_at a; last_active := last_active a;
     stake_locked := stake_locked a; stake_unlock_at := stake_unlock_at a;
     updated_at := updated_at a |}.

Definition set_nonce_active (n now : Z) (a : StoredAccount) : StoredAccount :=
  {| public_key := public_key a; balance := balance a; nonce := n;
     reputation := reputation a; created_at := created_at a; last_active := now;
     stake_locked := stake_locked a; stake_unlock_at := stake_unlock_at a;
     updated_at := now |}.

Definition set_updated_at (now : Z) (a : StoredAccount) : StoredAccount :=
  {| public_key := public_key a; balance := balance a; nonce := nonce a;
     reputation := reputation a; created_at := created_at a; last_active := last_active a;
     stake_locked := stake_locked a; stake_unlock_at := stake_unlock_at a;
     updated_at := now |}.

(** [array.push(x)] on [account_transactions[pk]], created empty when missing. *)
Definition push_index (pk txHash : string) (idx : gmap string (list string))
  : gmap string (list string) :=
  <[pk := (default [] (idx !! pk) ++ [txHash])%list]> idx.

(** The block guarded by [tx.type === 'transfer' && tx.to]: [inl msg] is its
    early [return { success: false, error: msg }], [inr accs] the accounts
    after its assignments.  [accounts[tx.to]] is tested for truthiness: when
    [tx.to] is no own key but an inherited one, [recipient] is a built-in
    object, the check passes, and the two assignments to [recipient] land on
    that object, outside the ledger: only the sender changes. *)
Definition transfer_block (now : Z) (tx : Transaction) (sender : StoredAccount)
    (accs : gmap string StoredAccount) : string + gmap string StoredAccount :=
  match tx_to tx with
  | Some to =>
      let fee := 1 in
      let totalDebit := tx_amount tx + fee in
      match accs !! to with
      | None =>
          if inherited to then
            if decide (balance sender < totalDebit) then inl "Insufficient balance"
            else
              let accs1 := alter (add_balance (- totalDebit)) (tx_from tx) accs in
              inr (alter (set_nonce_active (tx_nonce tx) now) (tx_from tx) accs1)
          else inl "Recipient account not found"
      | Some recipient =>
          if decide (balance sender < totalDebit) then inl "Insufficient balance"
          else
            let accs1 := alter (add_balance (- totalDebit)) (tx_from tx) accs in
            let accs2 := alter (add_balance (tx_amount tx)) to accs1 in
            let accs3 := alter (set_nonce_active (tx_nonce tx) now) (tx_from tx) accs2 in
            inr (alter (set_updated_at now) to accs3)
      end
  | None => inr accs
  end.

(** [account_transactions[tx.to].push(txHash)] after
    [if (!account_transactions[tx.to]) account_transactions[tx.to] = []]:
    for an inherited key that is no own key the test finds a built-in
    object, nothing is created, and the call of its missing [push] throws a
    [TypeError]; the index is then as it was. *)
Definition push_recipient_index (to txHash : string) (idx : gmap string (list string))
  : gmap string (list string) :=
  match idx !! to with
  | Some hashes => <[to := (hashes ++ [txHash])%list]> idx
  | None => if inherited to then idx else <[to := [txHash]]> idx
  end.

(** Whether that push throws. *)
Definition recipient_push_throws (tx : Transaction) (st : LedgerState) : bool :=
  match tx_to tx with
  | Some to =>
      truthy (tx_to tx) && negb (String.eqb to (tx_from tx))
      && bool_decide (account_transactions st !! to = None) && inherited to
  | None => false
  end.

(** The tail of [applyTransaction]: store the transaction and index it.
    The sender is an account of the ledger here, and a digest is 64 hex
    digits: neither key is taken to name an inherited property.  When the
    push to the recipient's index throws, the state is the one reached by
    then. *)
Definition record_transaction (now : Z) (tx : Transaction) (txHash : string)
    (accs : gmap string StoredAccount) (st : LedgerState) : LedgerState :=
  let storedTx :=
    {| stored_tx := tx; stored_hash := txHash; stored_block_height := block_height st;
       applied_at := now |} in
  let idx := push_index (tx_from tx) txHash (account_transactions st) in
  {| ledger_version := ledger_version st;
     block_height := block_height st;
     accounts := accs;
     transactions := <[txHash := storedTx]> (transactions st);
     account_transactions :=
       match tx_to tx with
       | Some to =>
           if truthy (tx_to tx) && negb (String.eqb to (tx_from tx))
           then push_recipient_index to txHash idx else idx
       | None => idx
       end |}.

(** How the tail of [applyTransaction] ends: by [return { success: true }],
    or by the [TypeError] of the push to the recipient's index. *)
Definition recorded (tx : Transaction) (st : LedgerState) : Outcome :=
  if recipient_push_throws tx st then threw "TypeError" else ok.

(** [InMemoryLedger.applyTransaction], on a ledger that is initialized.  An
    inherited key in [tx.from] finds a built-in object whose [nonce] is
    [undefined], so the nonce check fails against [NaN]. *)
Definition applyTransaction `{Crypto} (now : Z) (tx : Transaction) (st : LedgerState)
  : Outcome * LedgerState :=
  let txHash := hashTransaction tx in
  match transactions st !! txHash with
  | Some _ => (failed "Transaction already exists (duplicate)", st)
  | None =>
      match accounts st !! tx_from tx with
      | None =>
          if inherited (tx_from tx) then
            (failed ("Invalid nonce. Expected: NaN, Got: " ++ pretty (tx_nonce tx)), st)
          else (failed "Sender account not found", st)
      | Some sender =>
          if decide (tx_nonce tx ≠ nonce sender + 1) then
            (failed ("Invalid nonce. Expected: " ++ pretty (nonce sender + 1)
                     ++ ", Got: " ++ pretty (tx_nonce tx)), st)
          else if negb (verifyTransactionSignature tx) then
            (failed "Invalid transaction signature", st)
          else
            match validateEconomicConstraints tx (balance sender) with
            | inl msg => (failed msg, st)
            | inr _ =>
                if bool_decide (tx_type tx = transfer) && truthy (tx_to tx) then
                  match transfer_block now tx sender (accounts st) with
                  | inl msg => (failed msg, st)
                  | inr accs => (recorded tx st, record_transaction now tx txHash accs st)
                  end
                else (recorded tx st, record_transaction now tx txHash (accounts st) st)
            end
      end
  end.

(** [SkillMarketplace.purchaseSkill] builds this transaction for a listing
    sold by [seller] at [price]; [buyer_nonce] is the nonce of the buyer's
    account as read from the ledger. *)
Definition purchase_transaction (now : Z) (skill_id manifest_hash creator buyer seller : string)
    (price skill_created_at buyer_nonce : Z) : Transaction :=
  {| tx_version := 1; tx_type := skill_purchase; tx_from := buyer; tx_to := Some seller;
     tx_amount := price; tx_nonce := buyer_nonce + 1; tx_timestamp := now;
     tx_data := Some (JObject [
       ("skill_id", JString skill_id);
       ("manifest_hash", JString manifest_hash);
       ("creator_pubkey", JString creator);
       ("price", JNumber price);
       ("created_at", JNumber skill_created_at)]);
     tx_signature := "" |}.

Definition with_signature (sig : string) (tx : Transaction) : Transaction :=
  {| tx_version := tx_version tx; tx_type := tx_type tx; tx_from := tx_from tx;
     tx_to := tx_to tx; tx_amount := tx_amount tx; tx_nonce := tx_nonce tx;
     tx_timestamp := tx_timestamp tx; tx_data := tx_data tx; tx_signature := sig |}.

(** ** Identity registry *)

Record BotMetadata := {
  meta_name : option string;
  meta_description : option string;
  meta_version : option string;
  meta_creator : option string;
  meta_capabilities : option (list string);
}.

Record BotIdentity := {
  bot_public_key : string;
  bot_private_key : string;
  bot_created_at : Z;
  bot_reputation : Q;
  staked_amount : Z;
  stake_locked_until : Z;
  attestations : list string;
  metadata : option BotMetadata;
}.

Record IdentityStorage := {
  bots : gmap string BotIdentity;
  storage_attestations : gmap string (list string);
  storage_version : Z;
}.

Definition set_stake (amount locked_until : Z) (i : BotIdentity) : BotIdentity :=
  {| bot_public_key := bot_public_key i; bot_private_key := bot_private_key i;
     bot_created_at := bot_created_at i; bot_reputation := bot_reputation i;
     staked_amount := amount; stake_locked_until := locked_until;
     attestations := attestations i; metadata := metadata i |}.

Definition push_attestation (attester : string) (i : BotIdentity) : BotIdentity :=
  {| bot_public_key := bot_public_key i; bot_private_key := bot_private_key i;
     bot_created_at := bot_created_at i; bot_reputation := bot_reputation i;
     staked_amount := staked_amount i; stake_locked_until := stake_locked_until i;
     attestations := (attestations i ++ [attester])%list; metadata := metadata i |}.

(** [IdentityManager.registerBot(public_key, stake_amount, attestation?)],
    for a [public_key] and an [attestation] that name no inherited property
    of the dictionaries [bots] and [attestations]. *)
Definition registerBot (now : Z) (pk : string) (stake_amount : Z) (attestation : option string)
    (st : IdentityStorage) : Outcome * IdentityStorage :=
  match bots st !! pk with
  | None => (failed "Identity not found", st)
  | Some _ =>
      let required_stake := if truthy attestation then attestation_reduction else registration in
      if decide (stake_amount < required_stake) then
        (failed ("Insufficient stake. Required: " ++ pretty required_stake
                 ++ ", Provided: " ++ pretty stake_amount), st)
      else
        let locked_until := now + registration_lock_days * 24 * 60 * 60 * 1000 in
        let bots1 := alter (set_stake stake_amount locked_until) pk (bots st) in
        match attestation with
        | Some attester =>
            if truthy attestation then
              (ok, {| bots := alter (push_attestation attester) pk bots1;
                      storage_attestations :=
                        <[attester := (default [] (storage_attestations st !! attester) ++ [pk])%list]>
                          (storage_attestations st);
                      storage_version := storage_version st |})
            else
              (ok, {| bots := bots1; storage_attestations := storage_attestations st;
                      storage_version := storage_version st |})
        | None =>
            (ok, {| bots := bots1; storage_attestations := storage_attestations st;
                    storage_version := storage_version st |})
        end
  end.

(** [IdentityManager.canAttest]. *)
Definition canAttest (attester_public_key : string) (st : IdentityStorage) : bool :=
  match bots st !! attester_public_key with
  | None => false
  | Some attester => Qle_bool minimum_reputation_for_attestation (bot_reputation attester)
  end.

(** [IdentityManager.isRegistered]. *)
Definition isRegistered (now : Z) (pk : string) (st : IdentityStorage) : bool :=
  match bots st !! pk with
  | None => false
  | Some identity =>
      bool_decide (staked_amount identity >= registration)%Z
      && bool_decide (stake_locked_until identity > now)%Z
  end.

(** ** PBFT validator *)

Inductive ConsensusMessageType := pre_prepare | prepare | commit.

#[global] Instance ConsensusMessageType_eq_dec : EqDecision ConsensusMessageType.
Proof. solve_decision. Defined.

Definition message_type_name (t : ConsensusMessageType) : string :=
  match t with pre_prepare => "pre-prepare" | prepare => "prepare" | commit => "commit" end.

Record ConsensusMessage := {
  msg_type : ConsensusMessageType;
  msg_view : Z;
  msg_sequence : Z;
  msg_digest : string;
  msg_validator : string;
  msg_signature : string;
}.

Record PeerInfo := { peer_id : string; peer_public_key : string; endpoint : string }.

Record ValidatorConfig := {
  validator_id : string;
  config_public_key : string;
  config_private_key : string;
  peers : list PeerInfo;
  view_timeout_ms : Z;
}.

Record PBFTState := {
  view : Z;
  sequence : Z;
  is_leader : bool;
  leader_id : string;
  prepared : gmap string (gset string);
  committed : gmap string (gset string);
  checkpoint : Z;
}.

Record PendingTransaction := {
  pending_tx : Transaction;
  received_at : Z;
  pre_prepared : bool;
  tx_prepared : bool;
  tx_committed : bool;
}.

(** The fields of [class PBFTValidator].  [ledger] is the state of the ledger
    object the validator holds; [notified] lists, oldest first, the
    transactions the [on_commit_callbacks] were invoked with. *)
Record Validator := {
  config : ValidatorConfig;
  ledger : LedgerState;
  state : PBFTState;
  pending : gmap string PendingTransaction;
  message_log : list ConsensusMessage;
  notified : list Transaction;
}.

Definition electLeader (cfg : ValidatorConfig) (v : Z) : string :=
  match peers cfg with
  | [] => validator_id cfg
  | _ =>
      let all_validators := validator_id cfg :: map peer_id (peers cfg) in
      default "" (all_validators !! Z.to_nat (v mod Z.of_nat (length all_validators)))
  end.

(** The constructor. *)
Definition new_validator (cfg : ValidatorConfig) (l : LedgerState) : Validator :=
  let leader := electLeader cfg 0 in
  {| config := cfg; ledger := l;
     state := {| view := 0; sequence := 0;
                 is_leader := String.eqb leader (validator_id cfg);
                 leader_id := leader; prepared := ∅; committed := ∅; checkpoint := 0 |};
     pending := ∅; message_log := []; notified := [] |}.

(** [JSON.stringify(message)]: the properties in the order of the object
    literal. *)
Definition message_json (m : ConsensusMessage) : string :=
  default "" (stringify (JObject [
    ("type", JString (message_type_name (msg_type m)));
    ("view", JNumber (msg_view m));
    ("sequence", JNumber (msg_sequence m));
    ("digest", JString (msg_digest m));
    ("validator", JString (msg_validator m));
    ("signature", JString (msg_signature m))])).

Definition set_signature (sig : string) (m : ConsensusMessage) : ConsensusMessage :=
  {| msg_type := msg_type m; msg_view := msg_view m; msg_sequence := msg_sequence m;
     msg_digest := msg_digest m; msg_validator := msg_validator m; msg_signature := sig |}.

(** [message.signature = await this.signMessage(JSON.stringify(message))] on a
    message built with [signature: '']. *)
Definition sign_consensus_message `{Crypto} (cfg : ValidatorConfig) (m : ConsensusMessage)
  : ConsensusMessage :=
  set_signature (signMessage (message_json m) (config_private_key cfg)) m.

(** [PBFTValidator.verifyMessage]. *)
Definition verifyMessage `{Crypto} (cfg : ValidatorConfig) (message : ConsensusMessage) : bool :=
  let msg_copy := set_signature "" message in
  let public_key :=
    if String.eqb (msg_validator message) (validator_id cfg) then Some (config_public_key cfg)
    else peer_public_key <$> find (λ p, String.eqb (peer_id p) (msg_validator message)) (peers cfg) in
  match public_key with
  | Some pk =>
      if truthy public_key
      then verifySignature (message_json msg_copy) (msg_signature message) pk
      else false
  | None => false
  end.

(** [all_validators], [f] and [quorum] as [handlePrepare] and [handleCommit]
    compute them. *)
Definition all_validators_count (cfg : ValidatorConfig) : Z := Z.of_nat (length (peers cfg)) + 1.
Definition fault_bound (cfg : ValidatorConfig) : Z := (all_validators_count cfg - 1) / 3.
Definition quorum (cfg : ValidatorConfig) : Z := 2 * fault_bound cfg + 1.

(** [map.get(tx_hash)] after [if (!map.has(tx_hash)) map.set(tx_hash, new Set())]
    and [add(validator)]. *)
Definition add_vote (tx_hash validator : string) (votes : gmap string (gset string))
  : gmap string (gset string) :=
  <[tx_hash := default ∅ (votes !! tx_hash) ∪ {[validator]}]> votes.

Definition vote_count (tx_hash : string) (votes : gmap string (gset string)) : Z :=
  Z.of_nat (size (default ∅ (votes !! tx_hash))).

Definition set_state (s : PBFTState) (v : Validator) : Validator :=
  {| config := config v; ledger := ledger v; state := s; pending := pending v;
     message_log := message_log v; notified := notified v |}.

Definition set_pending (p : gmap string PendingTransaction) (v : Validator) : Validator :=
  {| config := config v; ledger := ledger v; state := state v; pending := p;
     message_log := message_log v; notified := notified v |}.

Definition log_message (m : ConsensusMessage) (v : Validator) : Validator :=
  {| config := config v; ledger := ledger v; state := state v; pending := pending v;
     message_log := (message_log v ++ [m])%list; notified := notified v |}.

Definition set_prepared (votes : gmap string (gset string)) (s : PBFTState) : PBFTState :=
  {| view := view s; sequence := sequence s; is_leader := is_leader s; leader_id := leader_id s;
     prepared := votes; committed := committed s; checkpoint := checkpoint s |}.

Definition set_committed (votes : gmap string (gset string)) (s : PBFTState) : PBFTState :=
  {| view := view s; sequence := sequence s; is_leader := is_leader s; leader_id := leader_id s;
     prepared := prepared s; committed := votes; checkpoint := checkpoint s |}.

Definition set_sequence (n : Z) (s : PBFTState) : PBFTState :=
  {| view := view s; sequence := n; is_leader := is_leader s; leader_id := leader_id s;
     prepared := prepared s; committed := committed s; checkpoint := checkpoint s |}.

Definition mark_pre_prepared (p : PendingTransaction) : PendingTransaction :=
  {| pending_tx := pending_tx p; received_at := received_at p; pre_prepared := true;
     tx_prepared := tx_prepared p; tx_committed := tx_committed p |}.

Definition mark_prepared (p : PendingTransaction) : PendingTransaction :=
  {| pending_tx := pending_tx p; received_at := received_at p; pre_prepared := pre_prepared p;
     tx_prepared := true; tx_committed := tx_committed p |}.

Definition mark_committed (p : PendingTransaction) : PendingTransaction :=
  {| pending_tx := pending_tx p; received_at := received_at p; pre_prepared := pre_prepared p;
     tx_prepared := tx_prepared p; tx_committed := true |}.

(** [PBFTValidator.commitTransaction]. *)
Definition commitTransaction `{Crypto} (now : Z) (tx_hash : string) (tx : Transaction)
    (v : Validator) : Validator :=
  let (result, ledger') := applyTransaction now tx (ledger v) in
  if success result then
    {| config := config v;
       ledger := ledger';
       state := set_committed (delete tx_hash (committed (state v)))
                  (set_prepared (delete tx_hash (prepared (state v))) (state v));
       pending := delete tx_hash (pending v);
       message_log := message_log v;
       notified := (notified v ++ [tx])%list |}
  else
    {| config := config v; ledger := ledger'; state := state v; pending := pending v;
       message_log := message_log v; notified := notified v |}.

(** [PBFTValidator.handleCommit]. *)
Definition handleCommit `{Crypto} (now : Z) (message : ConsensusMessage) (v : Validator)
  : Validator :=
  if negb (bool_decide (msg_type message = commit)) then v
  else if negb (verifyMessage (config v) message) then v
  else if negb (bool_decide (msg_view message = view (state v))) then v
  else
    let tx_hash := msg_digest message in
    let v1 := set_state (set_committed (add_vote tx_hash (msg_validator message)
                                          (committed (state v))) (state v)) v in
    let commit_count := vote_count tx_hash (committed (state v1)) + 1 in
    if decide (commit_count >= quorum (config v1)) then
      match pending v1 !! tx_hash with
      | Some p =>
          if tx_committed p then v1
          else commitTransaction now tx_hash (pending_tx p)
                 (set_pending (<[tx_hash := mark_committed p]> (pending v1)) v1)
      | None => v1
      end
    else v1.

(** [PBFTValidator.broadcastCommit]. *)
Definition broadcastCommit `{Crypto} (now : Z) (tx_hash : string) (v : Validator) : Validator :=
  let message :=
    sign_consensus_message (config v)
      {| msg_type := commit; msg_view := view (state v); msg_sequence := sequence (state v);
         msg_digest := tx_hash; msg_validator := validator_id (config v);
         msg_signature := "" |} in
  handleCommit now message (log_message message v).

(** [PBFTValidator.handlePrepare]. *)
Definition handlePrepare `{Crypto} (now : Z) (message : ConsensusMessage) (v : Validator)
  : Validator :=
  if negb (bool_decide (msg_type message = prepare)) then v
  else if negb (verifyMessage (config v) message) then v
  else if negb (bool_decide (msg_view message = view (state v))) then v
  else
    let tx_hash := msg_digest message in
    let v1 := set_state (set_prepared (add_vote tx_hash (msg_validator message)
                                         (prepared (state v))) (state v)) v in
    let prepare_count := vote_count tx_hash (prepared (state v1)) + 1 in
    if decide (prepare_count >= quorum (config v1)) then
      match pending v1 !! tx_hash with
      | Some p =>
          if tx_prepared p then v1
          else broadcastCommit now tx_hash
                 (set_pending (<[tx_hash := mark_prepared p]> (pending v1)) v1)
      | None => v1
      end
    else v1.

(** [PBFTValidator.broadcastPrepare]. *)
Definition broadcastPrepare `{Crypto} (now : Z) (tx_hash : string) (v : Validator) : Validator :=
  let message :=
    sign_consensus_message (config v)
      {| msg_type := prepare; msg_view := view (state v); msg_sequence := sequence (state v);
         msg_digest := tx_hash; msg_validator := validator_id (config v);
         msg_signature := "" |} in
  handlePrepare now message (log_message message v).

(** [PBFTValidator.handlePrePrepare]; its second argument [_tx] is unused. *)
Definition handlePrePrepare `{Crypto} (now : Z) (message : ConsensusMessage) (v : Validator)
  : Validator :=
  if negb (bool_decide (msg_type message = pre_prepare)) then v
  else if negb (verifyMessage (config v) message) then v
  else if negb (bool_decide (msg_view message = view (state v))) then v
  else if negb (String.eqb (msg_validator message) (leader_id (state v))) then v
  else
    match pending v !! msg_digest message with
    | None => v
    | Some p =>
        broadcastPrepare now (msg_digest message)
          (set_pending (<[msg_digest message := mark_pre_prepared p]> (pending v)) v)
    end.

(** [PBFTValidator.broadcastPrePrepare]: the message carries the sequence
    number read before [this.state.sequence++]. *)
Definition broadcastPrePrepare `{Crypto} (now : Z) (tx_hash : string) (v : Validator) : Validator :=
  let message :=
    sign_consensus_message (config v)
      {| msg_type := pre_prepare; msg_view := view (state v); msg_sequence := sequence (state v);
         msg_digest := tx_hash; msg_validator := validator_id (config v);
         msg_signature := "" |} in
  let v1 := set_state (set_sequence (sequence (state v) + 1) (state v)) v in
  handlePrePrepare now message (log_message message v1).

(** [PBFTValidator.validateTransaction]: [inl msg] is
    [{ valid: false, error: msg }].  For a sender that names an inherited
    property [getAccount] returns an object without a nonce, and the nonce
    test fails against [NaN]. *)
Definition validateTransaction `{Crypto} (tx : Transaction) (v : Validator) : string + unit :=
  if negb (verifySignature (hashTransaction tx) (tx_signature tx) (tx_from tx)) then
    inl "Invalid signature"
  else
    match getAccount (tx_from tx) (ledger v) with
    | None =>
        if inherited (tx_from tx) then inl "Invalid nonce. Expected: NaN"
        else inl "Sender account not found"
    | Some account =>
        if decide (tx_nonce tx ≠ nonce account + 1) then
          inl ("Invalid nonce. Expected: " ++ pretty (nonce account + 1))
        else inr tt
    end.

(** [PBFTValidator.submitTransaction]. *)
Definition submitTransaction `{Crypto} (now : Z) (tx : Transaction) (v : Validator)
  : Outcome * Validator :=
  let tx_hash := hashTransaction tx in
  match pending v !! tx_hash with
  | Some _ => (failed "Transaction already pending", v)
  | None =>
      match validateTransaction tx v with
      | inl msg => (failed msg, v)
      | inr _ =>
          let entry :=
            {| pending_tx := tx; received_at := now; pre_prepared := false;
               tx_prepared := false; tx_committed := false |} in
          let v1 := set_pending (<[tx_hash := entry]> (pending v)) v in
          (ok, if is_leader (state v1) then broadcastPrePrepare now tx_hash v1 else v1)
      end
  end.

(** The calls a validator receives from outside: a submitted transaction or a
    consensus message delivered to one of the three public handlers. *)
Inductive Call :=
  | Submit (tx : Transaction)
  | DeliverPrePrepare (message : ConsensusMessage)
  | DeliverPrepare (message : ConsensusMessage)
  | DeliverCommit (message : ConsensusMessage).

Definition step `{Crypto} (now : Z) (c : Call) (v : Validator) : Validator :=
  match c with
  | Submit tx => snd (submitTransaction now tx v)
  | DeliverPrePrepare m => handlePrePrepare now m v
  | DeliverPrepare m => handlePrepare now m v
  | DeliverCommit m => handleCommit now m v
  end.

(** Running a list of timed calls, oldest first. *)
Definition run `{Crypto} (calls : list (Z * Call)) (v : Validator) : Validator :=
  fold_left (λ v c, step (fst c) (snd c) v) calls v.

(** ** An idealised signature scheme

    Used to run the model on concrete inputs.  The public key of the private
    key [sk] is ["pub:" ++ sk]; a signature names the signer's public key and
    the signed message, and verification compares both.  The hash is the
    identity, hence collision free. *)
Definition ideal_public_key (private_key : string) : string := "pub:" ++ private_key.

Definition ideal_crypto : Crypto :=
  {| sha256_hex := λ bytes, bytes;
     signMessage := λ message private_key, ideal_public_key private_key ++ "/" ++ message;
     verifySignature := λ message sig public_key, String.eqb sig (public_key ++ "/" ++ message) |}.

(** ** Vocabulary of the hashing properties *)

(** A value is well formed when no object in it lists a key twice, as is the
    case of every JavaScript object. *)
Fixpoint json_wf (v : json) : Prop :=
  match v with
  | JArray items => foldr (λ item rest, json_wf item ∧ rest) True items
  | JObject props =>
      NoDup (map fst props) ∧ foldr (λ kv rest, json_wf (snd kv) ∧ rest) True props
  | _ => True
  end.

(** [reordered v1 v2]: [v2] is [v1] with the properties of its objects
    listed in another order, at any nesting level (inside arrays too). *)
#[warnings="-register-all"]
Inductive reordered : json → json → Prop :=
  | reordered_undefined : reordered JUndefined JUndefined
  | reordered_null : reordered JNull JNull
  | reordered_bool b : reordered (JBool b) (JBool b)
  | reordered_number n : reordered (JNumber n) (JNumber n)
  | reordered_string s : reordered (JString s) (JString s)
  | reordered_array items1 items2 :
      Forall2 reordered items1 items2 →
      reordered (JArray items1) (JArray items2)
  | reordered_object props1 props props2 :
      Forall2 (λ p1 p, fst p1 = fst p ∧ reordered (snd p1) (snd p)) props1 props →
      props ≡ₚ props2 →
      reordered (JObject props1) (JObject props2).

(** ** Vocabulary of the ledger properties *)

(** Sum of all balances held by the ledger. *)
Definition total_supply (accs : gmap string StoredAccount) : Z :=
  map_fold (λ _ account acc, balance account + acc) 0 accs.

(** The transfer block runs exactly for a transfer that names a recipient. *)
Definition moves_value (tx : Transaction) : bool :=
  bool_decide (tx_type tx = transfer) && truthy (tx_to tx).

(** The recipient a transaction names, if any, is not the name of an
    inherited property. *)
Definition ordinary_recipient (tx : Transaction) : Prop :=
  ∀ to, tx_to tx = Some to → inherited to = false.

(** Every check of [applyTransaction] that precedes the transfer block passes
    on [tx] in state [st], where [sender] is the account of [tx.from]. *)
Definition passes_checks `{Crypto} (tx : Transaction) (st : LedgerState) (sender : StoredAccount)
  : Prop :=
  transactions st !! hashTransaction tx = None
  ∧ accounts st !! tx_from tx = Some sender
  ∧ tx_nonce tx = nonce sender + 1
  ∧ verifyTransactionSignature tx = true
  ∧ validateEconomicConstraints tx (balance sender) = inr tt.

(** The nonce of an account, [None] when the account does not exist. *)
Definition nonce_of (pk : string) (st : LedgerState) : option Z :=
  nonce <$> accounts st !! pk.

(** Applying a list of timed transactions, oldest first. *)
Definition apply_all `{Crypto} (calls : list (Z * Transaction)) (st : LedgerState) : LedgerState :=
  fold_left (λ st c, snd (applyTransaction (fst c) (snd c) st)) calls st.

(** The number of transactions of [calls] that originate from [s] and are
    accepted when the list is applied from state [st]. *)
Fixpoint accepted_from `{Crypto} (s : string) (calls : list (Z * Transaction)) (st : LedgerState)
  : Z :=
  match calls with
  | [] => 0
  | c :: rest =>
      let result := applyTransaction (fst c) (snd c) st in
      (if success (fst result) && String.eqb (tx_from (snd c)) s then 1 else 0)
      + accepted_from s rest (snd result)
  end.

(** ** Vocabulary of the consensus properties *)

(** The validators whose PREPARE is recorded for a digest. *)
Definition prepare_votes (digest : string) (v : Validator) : gset string :=
  default ∅ (prepared (state v) !! digest).

(** The validator's own signatures verify under its configured public key. *)
Definition own_keys_match `{Crypto} (cfg : ValidatorConfig) : Prop :=
  config_public_key cfg ≠ ""
  ∧ ∀ message,
      verifySignature message (signMessage message (config_private_key cfg))
        (config_public_key cfg) = true.

(** ** Concrete scenarios *)

(** Unsigned transaction from [sender], then signed with [private_key] under
    the idealised scheme. *)
Definition signed (private_key : string) (tx : Transaction) : Transaction :=
  with_signature (@signTransaction ideal_crypto tx private_key) tx.

Definition alice : string := ideal_public_key "alice".
Definition bob : string := ideal_public_key "bob".

(** Sender with 1000 shells and recipient with 100, both at nonce 0. *)
Definition two_accounts : LedgerState :=
  default empty_ledger (createAccount 0 alice 1000 empty_ledger ≫= createAccount 0 bob 100).

(** Alice's account as [createAccount] leaves it. *)
Definition alice_account : StoredAccount :=
  {| public_key := alice; balance := 1000; nonce := 0; reputation := inject_Z 0;
     created_at := 0; last_active := 0; stake_locked := 0; stake_unlock_at := None;
     updated_at := 0 |}.

Definition transfer_from_alice (to : option string) (amount n : Z) : Transaction :=
  signed "alice"
    {| tx_version := 1; tx_type := transfer; tx_from := alice; tx_to := to;
       tx_amount := amount; tx_nonce := n; tx_timestamp := 1700000000000; tx_data := None;
       tx_signature := "" |}.

(** Alice sends 100 shells to the key 'constructor', which is no account. *)
Definition transfer_to_constructor : Transaction :=
  transfer_from_alice (Some "constructor") 100 1.

Definition mint_from_alice (timestamp : Z) : Transaction :=
  signed "alice"
    {| tx_version := 1; tx_type := mint; tx_from := alice; tx_to := None;
       tx_amount := 10; tx_nonce := 1; tx_timestamp := timestamp; tx_data := None;
       tx_signature := "" |}.

Definition two_mints : list (Z * Transaction) :=
  [(7, mint_from_alice 1); (8, mint_from_alice 2)].

(** Scenario 5: creator with balance 0, buyer with balance 1000, a skill
    listed by its creator at price 50, and the transaction [purchaseSkill]
    builds and signs for it. *)
Definition creator : string := ideal_public_key "creator".
Definition buyer : string := ideal_public_key "buyer".

Definition marketplace_ledger : LedgerState :=
  default empty_ledger (createAccount 0 creator 0 empty_ledger ≫= createAccount 0 buyer 1000).

Definition scenario5_purchase : Transaction :=
  signed "buyer"
    (purchase_transaction 1700000000000 "skill-M" "skill-M" creator buyer creator 50
       1699999999000 0).

(** An identity as [createWallet] stores it, with the given reputation. *)
Definition wallet (pk : string) (rep : Q) : BotIdentity :=
  {| bot_public_key := pk; bot_private_key := "sk:" ++ pk; bot_created_at := 0;
     bot_reputation := rep; staked_amount := 0; stake_locked_until := 0;
     attestations := []; metadata := None |}.

(** A newcomer and an attester of reputation 0. *)
Definition two_bots : IdentityStorage :=
  {| bots := <["newcomer" := wallet "newcomer" (inject_Z 0)]>
               (<["attester" := wallet "attester" (inject_Z 0)]> ∅);
     storage_attestations := ∅; storage_version := 1 |}.

(** The same with an attester of reputation 300. *)
Definition reputable_attester : IdentityStorage :=
  {| bots := <["newcomer" := wallet "newcomer" (inject_Z 0)]>
               (<["attester" := wallet "attester" (inject_Z 300)]> ∅);
     storage_attestations := ∅; storage_version := 1 |}.

(** A nested object and the same object with its keys written in another
    order at each of its three levels. *)
Definition sample_object : json :=
  JObject [("b", JNumber 2);
           ("a", JObject [("y", JArray [JObject [("q", JNumber 1); ("p", JNumber 2)]]);
                          ("x", JNull)])].

Definition sample_object_reordered : json :=
  JObject [("a", JObject [("x", JNull);
                          ("y", JArray [JObject [("p", JNumber 2); ("q", JNumber 1)]])]);
           ("b", JNumber 2)].

(** A consensus message of view 0 signed by [private_key] under the idealised
    scheme. *)
Definition signed_message (t : ConsensusMessageType) (digest validator private_key : string)
    (seq : Z) : ConsensusMessage :=
  @sign_consensus_message ideal_crypto
    {| validator_id := validator; config_public_key := ideal_public_key private_key;
       config_private_key := private_key; peers := []; view_timeout_ms := 0 |}
    {| msg_type := t; msg_view := 0; msg_sequence := seq; msg_digest := digest;
       msg_validator := validator; msg_signature := "" |}.

Definition peer (n : string) : PeerInfo :=
  {| peer_id := "validator-" ++ n; peer_public_key := ideal_public_key ("v" ++ n);
     endpoint := "http://node" ++ n |}.

(** Four validators (f = 1, quorum = 3), seen from validator-1. *)
Definition four_validators : ValidatorConfig :=
  {| validator_id := "validator-1"; config_public_key := ideal_public_key "v1";
     config_private_key := "v1"; peers := [peer "2"; peer "3"; peer "4"];
     view_timeout_ms := 5000 |}.

(** Two validators; the public key configured for validator-1 is not the one
    of its private key. *)
Definition mismatched_keys : ValidatorConfig :=
  {| validator_id := "validator-1"; config_public_key := ideal_public_key "stale";
     config_private_key := "v1"; peers := [peer "2"]; view_timeout_ms := 5000 |}.

Definition payment : Transaction := transfer_from_alice (Some bob) 100 1.
Definition payment_digest : string := @hashTransaction ideal_crypto payment.

(** validator-2's PREPARE for the payment. *)
Definition peer_prepare : ConsensusMessage :=
  signed_message prepare payment_digest "validator-2" "v2" 1.

(** validator-2's COMMIT for the payment. *)
Definition peer_commit : ConsensusMessage :=
  signed_message commit payment_digest "validator-2" "v2" 1.

(** validator-1 of the four after the payment was submitted to it. *)
Definition after_submit : Validator :=
  @run ideal_crypto [(10, Submit payment)] (new_validator four_validators two_accounts).

(** The validator with mismatched keys after the payment was submitted to
    it: its own PRE-PREPARE did not verify, so the entry is pending without
    the [pre_prepared] flag. *)
Definition after_mismatched_submit : Validator :=
  @run ideal_crypto [(10, Submit payment)] (new_validator mismatched_keys two_accounts).

(** ** Further ledger operations *)

(** [accountExists]: [public_key in this.state.accounts]. *)
Definition accountExists (pk : string) (st : LedgerState) : bool :=
  bool_decide (is_Some (accounts st !! pk)) || inherited pk.

(** [getTransactionByHash]: the stored transaction without the three fields
    the ledger added, [None] for [null]. *)
Definition getTransactionByHash (hash : string) (st : LedgerState) : option Transaction :=
  stored_tx <$> transactions st !! hash.

Definition getBlockHeight (st : LedgerState) : Z := block_height st.

(** [incrementBlockHeight]. *)
Definition incrementBlockHeight (st : LedgerState) : LedgerState :=
  {| ledger_version := ledger_version st; block_height := block_height st + 1;
     accounts := accounts st; transactions := transactions st;
     account_transactions := account_transactions st |}.

(** [array.slice(start)]: a negative [start] counts from the end, and both
    ends are clamped. *)
Definition slice_from {A} (start : Z) (l : list A) : list A :=
  let len := Z.of_nat (length l) in
  let k := if decide (start < 0) then Z.max (len + start) 0 else Z.min start len in
  drop (Z.to_nat k) l.

(** [array.sort((a, b) => b.applied_at - a.applied_at)].  The sort of
    JavaScript is stable: [a] goes before a later element [b] unless [b] is
    strictly newer.  Insertion from the right does exactly that. *)
Fixpoint insert_newest (a : StoredTransaction) (sorted : list StoredTransaction)
  : list StoredTransaction :=
  match sorted with
  | [] => [a]
  | b :: rest =>
      if decide (applied_at b <= applied_at a) then a :: b :: rest
      else b :: insert_newest a rest
  end.

Definition sort_newest_first (l : list StoredTransaction) : list StoredTransaction :=
  foldr insert_newest [] l.

(** The chain of [getTransactionHistory] up to the sort:
    [txHashes.slice(-limit).map(hash => transactions[hash]).filter(Boolean).sort(...)],
    for a [public_key] that names no inherited property of
    [account_transactions]. *)
Definition history_entries (limit : Z) (pk : string) (st : LedgerState)
  : list StoredTransaction :=
  let txHashes := default [] (account_transactions st !! pk) in
  sort_newest_first (omap (λ hash, transactions st !! hash) (slice_from (- limit) txHashes)).

(** [getTransactionHistory(public_key, limit)]. *)
Definition getTransactionHistory (limit : Z) (pk : string) (st : LedgerState)
  : list Transaction :=
  map stored_tx (history_entries limit pk st).

(** The calls that change a ledger.  A [createAccount] that throws leaves the
    state as it was. *)
Inductive LedgerCall :=
  | CreateAccount (pk : string) (initial_balance : Z)
  | ApplyTransaction (tx : Transaction)
  | IncrementBlockHeight.

Definition ledger_step `{Crypto} (now : Z) (c : LedgerCall) (st : LedgerState) : LedgerState :=
  match c with
  | CreateAccount pk initial_balance => default st (createAccount now pk initial_balance st)
  | ApplyTransaction tx => snd (applyTransaction now tx st)
  | IncrementBlockHeight => incrementBlockHeight st
  end.

Definition ledger_run `{Crypto} (calls : list (Z * LedgerCall)) (st : LedgerState) : LedgerState :=
  fold_left (λ st c, ledger_step (fst c) (snd c) st) calls st.

(** The number of transfers naming a recipient among the transactions of
    [calls] that are accepted when the list is applied from [st]. *)
Fixpoint accepted_transfers `{Crypto} (calls : list (Z * Transaction)) (st : LedgerState) : Z :=
  match calls with
  | [] => 0
  | c :: rest =>
      let result := applyTransaction (fst c) (snd c) st in
      (if success (fst result) && moves_value (snd c) then 1 else 0)
      + accepted_transfers rest (snd result)
  end.

(** ** Further economic rules *)

(** [isEligibleForUBI(account, current_time)]; a [stake_unlock_at] of 0 is
    falsy like an absent one. *)
Definition isEligibleForUBI (account : StoredAccount) (current_time : Z) : bool :=
  if decide (stake_locked account < registration) then false
  else
    match stake_unlock_at account with
    | Some unlock_at => negb (bool_decide (unlock_at = 0)) && bool_decide (unlock_at > current_time)
    | None => false
    end.

Inductive Priority := low | normal | high.

(** [calculateTransactionFee(base_fee, priority)] for an integer base fee:
    [Math.ceil(base_fee * multiplier)] with multipliers 0.5, 1 and 2. *)
Definition calculateTransactionFee (base_fee : Z) (priority : Priority) : Z :=
  match priority with
  | low => (base_fee + 1) / 2
  | normal => base_fee
  | high => 2 * base_fee
  end.

Inductive Complexity := complexity_low | complexity_medium | complexity_high.

Record SkillEconomics := { minting_reward : Z; validation_cost : Z; net_value : Z }.

(** [DEFAULT_CURRENCY_CONFIG.minting.skill_creation]. *)
Definition skill_creation : Z := 50.

(** [calculateSkillEconomics(skill_size_bytes, validation_complexity)]. *)
Definition calculateSkillEconomics (skill_size_bytes : Z) (validation_complexity : Complexity)
  : SkillEconomics :=
  let base_reward := skill_creation in
  let size_penalty := skill_size_bytes / 10000 in
  let reward := Z.max 0 (base_reward - size_penalty) in
  let cost :=
    match validation_complexity with
    | complexity_low => 1 | complexity_medium => 5 | complexity_high => 10
    end in
  {| minting_reward := reward; validation_cost := cost; net_value := reward - cost |}.

(** ** Further scenarios *)

(** Alice stakes 50 shells. *)
Definition stake_from_alice : Transaction :=
  signed "alice"
    {| tx_version := 1; tx_type := stake; tx_from := alice; tx_to := None;
       tx_amount := 50; tx_nonce := 1; tx_timestamp := 1700000000000; tx_data := None;
       tx_signature := "" |}.

(** ** Further identity operations *)

(** [IdentityManager.getAttestations]: [identity?.attestations || []]. *)
Definition getAttestations (pk : string) (st : IdentityStorage) : list string :=
  default [] (attestations <$> bots st !! pk).

(** The stake [registerBot] asks for. *)
Definition required_stake (attestation : option string) : Z :=
  if truthy attestation then attestation_reduction else registration.

(** Thirty days in milliseconds:
    [STAKE_REQUIREMENTS.registration_lock_days * 24 * 60 * 60 * 1000]. *)
Definition lock_period : Z := registration_lock_days * 24 * 60 * 60 * 1000.

(** ** Further vocabulary of the consensus properties *)

(** [all_validators] of [electLeader], by id: the validator itself first,
    then its peers in the order of the configuration. *)
Definition known_validators (cfg : ValidatorConfig) : list string :=
  validator_id cfg :: map peer_id (peers cfg).

(** The validators whose COMMIT is recorded for a digest. *)
Definition commit_votes (digest : string) (v : Validator) : gset string :=
  default ∅ (committed (state v) !! digest).

(** The number of [Submit] calls of [calls] that get past the pending check
    and [validateTransaction], and so reach [broadcastPrePrepare], when the
    calls are run from [v]. *)
Fixpoint validated_submissions `{Crypto} (calls : list (Z * Call)) (v : Validator) : Z :=
  match calls with
  | [] => 0
  | c :: rest =>
      (match snd c with
       | Submit tx =>
           match pending v !! hashTransaction tx with
           | Some _ => 0
           | None => match validateTransaction tx v with inl _ => 0 | inr _ => 1 end
           end
       | _ => 0
       end)
      + validated_submissions rest (step (fst c) (snd c) v)
  end.

(** A pending entry that went through all three phases. *)
Definition stuck_entry (tx : Transaction) (now : Z) : PendingTransaction :=
  {| pending_tx := tx; received_at := now; pre_prepared := true; tx_prepared := true;
     tx_committed := true |}.

(** A network of one validator. *)
Definition single_validator : ValidatorConfig :=
  {| validator_id := "validator-1"; config_public_key := ideal_public_key "v1";
     config_private_key := "v1"; peers := []; view_timeout_ms := 5000 |}.

(** The fields no method assigns after the constructor, at the values the
    constructor gives them. *)
Definition static (cfg : ValidatorConfig) (v : Validator) : Prop :=
  config v = cfg ∧ view (state v) = 0 ∧ is_leader (state v) = true
  ∧ leader_id (state v) = validator_id cfg.

(** Every recorded vote is by the validator itself or one of its peers. *)
Definition votes_known (cfg : ValidatorConfig) (v : Validator) : Prop :=
  config v = cfg
  ∧ ∀ digest voter,
      voter ∈ prepare_votes digest v ∪ commit_votes digest v → voter ∈ known_validators cfg.

(** The transactions the commit callbacks saw have distinct hashes and are
    stored in the ledger. *)
Definition notified_applied `{Crypto} (v : Validator) : Prop :=
  NoDup (map hashTransaction (notified v))
  ∧ ∀ tx, tx ∈ notified v → getTransactionByHash (hashTransaction tx) (ledger v) = Some tx.

(** ** Reputation updates *)

(** The two computations of the code that work in floating point, kept
    abstract: [calculateReputation] of the economy module (it multiplies by
    [Math.pow(0.99, account_age_months)]) and the quotient [sum / count] of
    [addReview]. *)
Class Floats := {
  calculateReputation : Z → Z → Z → Z → Z → Z → Z → Q;
  quotient : Z → Z → Q;
}.

(** The [params] object of [updateReputation]; an absent property is
    [None]. *)
Record ReputationParams := {
  successful_trades : option Z;
  skills_created : option Z;
  validator_uptime_hours : option Z;
  governance_votes : option Z;
  disputes_lost : option Z;
  spam_flags : option Z;
}.

Definition no_params : ReputationParams :=
  {| successful_trades := None; skills_created := None; validator_uptime_hours := None;
     governance_votes := None; disputes_lost := None; spam_flags := None |}.

Definition set_reputation (r : Q) (i : BotIdentity) : BotIdentity :=
  {| bot_public_key := bot_public_key i; bot_private_key := bot_private_key i;
     bot_created_at := bot_created_at i; bot_reputation := r;
     staked_amount := staked_amount i; stake_locked_until := stake_locked_until i;
     attestations := attestations i; metadata := metadata i |}.

(** The score [updateReputation] computes for an identity: [params.x || 0]
    for each parameter and the age in whole periods of thirty days. *)
Definition reputation_score `{Floats} (now : Z) (params : ReputationParams)
    (identity : BotIdentity) : Q :=
  let account_age_months := (now - bot_created_at identity) / (30 * 24 * 60 * 60 * 1000) in
  calculateReputation
    (default 0 (successful_trades params)) (default 0 (skills_created params))
    (default 0 (validator_uptime_hours params)) (default 0 (governance_votes params))
    (default 0 (disputes_lost params)) (default 0 (spam_flags params))
    account_age_months.

(** [IdentityManager.updateReputation(public_key, params)]. *)
Definition updateReputation `{Floats} (now : Z) (pk : string) (params : ReputationParams)
    (st : IdentityStorage) : Q * IdentityStorage :=
  match bots st !! pk with
  | None => (inject_Z 0, st)
  | Some identity =>
      let r := reputation_score now params identity in
      (r, {| bots := alter (set_reputation r) pk (bots st);
             storage_attestations := storage_attestations st;
             storage_version := storage_version st |})
  end.

(** ** Skill marketplace *)

Inductive SkillType := type_skill | type_content | type_compute | type_service.

Definition skill_type_name (t : SkillType) : string :=
  match t with
  | type_skill => "skill" | type_content => "content" | type_compute => "compute"
  | type_service => "service"
  end.

Inductive License := proprietary | MIT | CC_BY | Apache_2_0.

Definition license_name (l : License) : string :=
  match l with
  | proprietary => "proprietary" | MIT => "MIT" | CC_BY => "CC-BY" | Apache_2_0 => "Apache-2.0"
  end.

Record SkillFile := { file_path : string; file_content : string; file_hash : string }.

Record SkillPackage := {
  skill_id : string;
  skill_name : string;
  skill_description : string;
  skill_version : string;
  skill_type : SkillType;
  files : list SkillFile;
  manifest_hash : string;
  dependencies : list string;
  license : License;
  entry_point : option string;
  created_by : string;
  skill_created_at : Z;
}.

Inductive ListingStatus := active | sold | delisted.

#[global] Instance ListingStatus_eq_dec : EqDecision ListingStatus.
Proof. solve_decision. Defined.

Record Review := {
  reviewer : string;
  review_rating : Z;
  comment : string;
  review_timestamp : Z;
}.

Record SkillListing := {
  listing_skill_id : string;
  seller : string;
  price : Z;
  listed_at : Z;
  status : ListingStatus;
  sales_count : Z;
  rating : Q;
  reviews : list Review;
}.

Record SkillPurchase := {
  purchase_skill_id : string;
  purchase_buyer : string;
  purchase_seller : string;
  purchase_price : Z;
  purchased_at : Z;
  transaction_hash : string;
}.

Record SkillStorage := {
  skills : gmap string SkillPackage;
  listings : gmap string SkillListing;
  purchases : gmap string (list SkillPurchase);
  skills_version : Z;
}.

(** The fields of [class SkillMarketplace]: its storage and the states of
    the ledger and of the identity manager it was constructed with. *)
Record Marketplace := {
  storage : SkillStorage;
  market_ledger : LedgerState;
  identities : IdentityStorage;
}.

Definition empty_storage : SkillStorage :=
  {| skills := ∅; listings := ∅; purchases := ∅; skills_version := 1 |}.

(** The constructor. *)
Definition new_marketplace (l : LedgerState) (ids : IdentityStorage) : Marketplace :=
  {| storage := empty_storage; market_ledger := l; identities := ids |}.

Definition set_storage (s : SkillStorage) (mk : Marketplace) : Marketplace :=
  {| storage := s; market_ledger := market_ledger mk; identities := identities mk |}.

(** The [manifest] object that [createSkill] and [verifySkill] hash. *)
Definition manifest (name description version : string) (type : SkillType)
    (fs : list SkillFile) (deps : list string) (lic : License) (entry : option string) : json :=
  JObject [
    ("name", JString name);
    ("description", JString description);
    ("version", JString version);
    ("type", JString (skill_type_name type));
    ("files", JArray (map (λ f, JObject [("path", JString (file_path f));
                                         ("hash", JString (file_hash f))]) fs));
    ("dependencies", JArray (map JString deps));
    ("license", JString (license_name lic));
    ("entry_point", json_of_opt_string entry)].

(** The result [{ success, skill?, error? }] of [createSkill] and
    [purchaseSkill]. *)
Definition SkillOutcome : Type := Outcome * option SkillPackage.

(** [SkillMarketplace.createSkill]; a file is the pair of its path and its
    content. *)
Definition createSkill `{Crypto} `{Floats} (now : Z) (name description version : string)
    (type : SkillType) (fs : list (string * string)) (creator : string)
    (deps : list string) (lic : License) (entry : option string) (mk : Marketplace)
  : SkillOutcome * Marketplace :=
  let fileHashes :=
    map (λ f, {| file_path := fst f; file_content := snd f;
                 file_hash := hashData (HString (snd f)) |}) fs in
  let manifest_hash := hashData (HObject (manifest name description version type fileHashes
                                            deps lic entry)) in
  let skill_id := manifest_hash in
  match skills (storage mk) !! skill_id with
  | Some _ => ((failed "Skill already exists", None), mk)
  | None =>
      let skill :=
        {| skill_id := skill_id; skill_name := name; skill_description := description;
           skill_version := version; skill_type := type; files := fileHashes;
           manifest_hash := manifest_hash; dependencies := deps; license := lic;
           entry_point := entry; created_by := creator; skill_created_at := now |} in
      ((ok, Some skill),
       {| storage := {| skills := <[skill_id := skill]> (skills (storage mk));
                        listings := listings (storage mk);
                        purchases := purchases (storage mk);
                        skills_version := skills_version (storage mk) |};
          market_ledger := market_ledger mk;
          identities :=
            snd (updateReputation now creator
                   {| successful_trades := None; skills_created := Some 1;
                      validator_uptime_hours := None; governance_votes := None;
                      disputes_lost := None; spam_flags := None |}
                   (identities mk)) |})
  end.

Definition set_listings (ls : gmap string SkillListing) (s : SkillStorage) : SkillStorage :=
  {| skills := skills s; listings := ls; purchases := purchases s;
     skills_version := skills_version s |}.

(** [SkillMarketplace.listSkill]. *)
Definition listSkill (now : Z) (id : string) (asked : Z) (by_whom : string) (mk : Marketplace)
  : Outcome * Marketplace :=
  match skills (storage mk) !! id with
  | None => (failed "Skill not found", mk)
  | Some skill =>
      if negb (String.eqb (created_by skill) by_whom) then
        (failed "Only creator can list skill", mk)
      else
        let listing :=
          {| listing_skill_id := id; seller := by_whom; price := asked; listed_at := now;
             status := active; sales_count := 0; rating := inject_Z 0; reviews := [] |} in
        (ok, set_storage (set_listings (<[id := listing]> (listings (storage mk))) (storage mk)) mk)
  end.

(** [{ ...tx, signature }] as [purchaseSkill] passes it to [hashData]. *)
Definition transaction_json (tx : Transaction) : json :=
  JObject [
    ("version", JNumber (tx_version tx));
    ("type", JString (type_name (tx_type tx)));
    ("from", JString (tx_from tx));
    ("to", json_of_opt_string (tx_to tx));
    ("amount", JNumber (tx_amount tx));
    ("nonce", JNumber (tx_nonce tx));
    ("timestamp", JNumber (tx_timestamp tx));
    ("data", default JUndefined (tx_data tx));
    ("signature", JString (tx_signature tx))].

Definition count_sale (l : SkillListing) : SkillListing :=
  {| listing_skill_id := listing_skill_id l; seller := seller l; price := price l;
     listed_at := listed_at l; status := status l; sales_count := sales_count l + 1;
     rating := rating l; reviews := reviews l |}.

(** The transaction [purchaseSkill] signs and submits for [listing]. *)
Definition purchase_of `{Crypto} (now : Z) (id buyer_key buyer_private_key : string)
    (skill : SkillPackage) (listing : SkillListing) (buyer_nonce : Z) : Transaction :=
  let tx := purchase_transaction now id (manifest_hash skill) (created_by skill) buyer_key
              (seller listing) (price listing) (skill_created_at skill) buyer_nonce in
  with_signature (signTransaction tx buyer_private_key) tx.

(** [SkillMarketplace.purchaseSkill]. *)
Definition purchaseSkill `{Crypto} `{Floats} (now : Z) (id buyer_key buyer_private_key : string)
    (mk : Marketplace) : SkillOutcome * Marketplace :=
  match listings (storage mk) !! id with
  | None => ((failed "Skill not available for purchase", None), mk)
  | Some listing =>
      if negb (bool_decide (status listing = active)) then
        ((failed "Skill not available for purchase", None), mk)
      else
        match skills (storage mk) !! id with
        | None => ((failed "Skill not found", None), mk)
        | Some skill =>
            if decide (getBalance buyer_key (market_ledger mk) < price listing) then
              ((failed "Insufficient balance", None), mk)
            else
              match getAccount buyer_key (market_ledger mk) with
              | None => ((failed "Buyer account not found", None), mk)
              | Some buyerAccount =>
                  let tx := purchase_of now id buyer_key buyer_private_key skill listing
                              (nonce buyerAccount) in
                  let (result, ledger') := applyTransaction now tx (market_ledger mk) in
                  if negb (success result) then
                    (({| success := false; error := error result;
                         exception := exception result |}, None),
                     {| storage := storage mk; market_ledger := ledger';
                        identities := identities mk |})
                  else
                    let purchase :=
                      {| purchase_skill_id := id; purchase_buyer := buyer_key;
                         purchase_seller := seller listing; purchase_price := price listing;
                         purchased_at := now;
                         transaction_hash := hashData (HObject (transaction_json tx)) |} in
                    ((ok, Some skill),
                     {| storage :=
                          {| skills := skills (storage mk);
                             listings := <[id := count_sale listing]> (listings (storage mk));
                             purchases :=
                               <[id := (default [] (purchases (storage mk) !! id)
                                        ++ [purchase])%list]> (purchases (storage mk));
                             skills_version := skills_version (storage mk) |};
                        market_ledger := ledger';
                        identities :=
                          snd (updateReputation now buyer_key
                                 {| successful_trades := Some 1; skills_created := None;
                                    validator_uptime_hours := None; governance_votes := None;
                                    disputes_lost := None; spam_flags := None |}
                                 (identities mk)) |})
              end
        end
  end.

(** [SkillMarketplace.verifySkill]: [(valid, error)]. *)
Definition verifySkill `{Crypto} (id : string) (mk : Marketplace) : bool * option string :=
  match skills (storage mk) !! id with
  | None => (false, Some "Skill not found")
  | Some skill =>
      let computed_hash :=
        hashData (HObject (manifest (skill_name skill) (skill_description skill)
                             (skill_version skill) (skill_type skill) (files skill)
                             (dependencies skill) (license skill) (entry_point skill))) in
      if negb (String.eqb computed_hash (manifest_hash skill)) then
        (false, Some "Manifest hash mismatch")
      else
        match find (λ f, negb (String.eqb (hashData (HString (file_content f))) (file_hash f)))
                (files skill) with
        | Some file => (false, Some ("File hash mismatch: " ++ file_path file))
        | None => (true, None)
        end
  end.

Definition add_review `{Floats} (r : Review) (l : SkillListing) : SkillListing :=
  let rs := (reviews l ++ [r])%list in
  {| listing_skill_id := listing_skill_id l; seller := seller l; price := price l;
     listed_at := listed_at l; status := status l; sales_count := sales_count l;
     rating := quotient (foldl (λ sum r, sum + review_rating r) 0 rs) (Z.of_nat (length rs));
     reviews := rs |}.

(** [SkillMarketplace.addReview]. *)
Definition addReview `{Floats} (now : Z) (id who : string) (stars : Z) (text : string)
    (mk : Marketplace) : Outcome * Marketplace :=
  match listings (storage mk) !! id with
  | None => (failed "Listing not found", mk)
  | Some listing =>
      let hasPurchased :=
        existsb (λ p, String.eqb (purchase_buyer p) who)
          (default [] (purchases (storage mk) !! id)) in
      if negb hasPurchased then (failed "Only buyers can review", mk)
      else
        let review :=
          {| reviewer := who; review_rating := stars; comment := text;
             review_timestamp := now |} in
        (ok, set_storage (set_listings (<[id := add_review review listing]>
                                          (listings (storage mk))) (storage mk)) mk)
  end.

Definition set_status (s : ListingStatus) (l : SkillListing) : SkillListing :=
  {| listing_skill_id := listing_skill_id l; seller := seller l; price := price l;
     listed_at := listed_at l; status := s; sales_count := sales_count l;
     rating := rating l; reviews := reviews l |}.

(** [SkillMarketplace.delistSkill]. *)
Definition delistSkill (id by_whom : string) (mk : Marketplace) : Outcome * Marketplace :=
  match listings (storage mk) !! id with
  | None => (failed "Listing not found", mk)
  | Some listing =>
      if negb (String.eqb (seller listing) by_whom) then (failed "Only seller can delist", mk)
      else
        (ok, set_storage (set_listings (<[id := set_status delisted listing]>
                                          (listings (storage mk))) (storage mk)) mk)
  end.

(** The calls that change a marketplace.  The ledger and the identity
    manager are shared with other users, whose calls between two calls of
    the marketplace show as [Elsewhere]. *)
Inductive MarketCall :=
  | CreateSkill (name description version : string) (type : SkillType)
      (fs : list (string * string)) (creator : string) (deps : list string) (lic : License)
      (entry : option string)
  | ListSkill (id : string) (asked : Z) (by_whom : string)
  | PurchaseSkill (id buyer_key buyer_private_key : string)
  | AddReview (id who : string) (stars : Z) (text : string)
  | DelistSkill (id by_whom : string)
  | Elsewhere (l : LedgerState) (ids : IdentityStorage).

Definition market_step `{Crypto} `{Floats} (now : Z) (c : MarketCall) (mk : Marketplace)
  : Marketplace :=
  match c with
  | CreateSkill name description version type fs creator deps lic entry =>
      snd (createSkill now name description version type fs creator deps lic entry mk)
  | ListSkill id asked by_whom => snd (listSkill now id asked by_whom mk)
  | PurchaseSkill id buyer_key buyer_private_key =>
      snd (purchaseSkill now id buyer_key buyer_private_key mk)
  | AddReview id who stars text => snd (addReview now id who stars text mk)
  | DelistSkill id by_whom => snd (delistSkill id by_whom mk)
  | Elsewhere l ids => {| storage := storage mk; market_ledger := l; identities := ids |}
  end.

Definition market_run `{Crypto} `{Floats} (calls : list (Z * MarketCall)) (mk : Marketplace)
  : Marketplace :=
  fold_left (λ mk c, market_step (fst c) (snd c) mk) calls mk.

(** What the storage of a marketplace satisfies as long as only the
    marketplace writes it: a skill is stored under its manifest hash and
    verifies, a listing belongs to a stored skill and is by its creator, and
    a review is by a buyer on record. *)
Definition storage_consistent `{Crypto} (mk : Marketplace) : Prop :=
  (∀ id skill, skills (storage mk) !! id = Some skill →
     skill_id skill = id ∧ manifest_hash skill = id ∧ verifySkill id mk = (true, None))
  ∧ (∀ id listing, listings (storage mk) !! id = Some listing →
       listing_skill_id listing = id
       ∧ ∃ skill, skills (storage mk) !! id = Some skill ∧ seller listing = created_by skill)
  ∧ (∀ id listing review, listings (storage mk) !! id = Some listing →
       review ∈ reviews listing →
       ∃ purchase, purchase ∈ default [] (purchases (storage mk) !! id)
                   ∧ purchase_buyer purchase = reviewer review).

(** A stand-in for the floating-point computations, to run the model on
    concrete inputs: the undecayed score in whole points, and the quotient
    as a fraction. *)
Definition ideal_floats : Floats :=
  {| calculateReputation := λ trades created uptime votes disputes flags _,
       inject_Z (Z.max 0 (trades * 10 + created * 20 + uptime / 10 + votes * 5
                          - disputes * 50 - flags * 100));
     quotient := λ a b, (a # Z.to_pos b)%Q |}.

(** Scenario 5 as a marketplace: the creator stores a skill, lists it at
    50, the buyer purchases and reviews it. *)
Definition empty_identities : IdentityStorage :=
  {| bots := ∅; storage_attestations := ∅; storage_version := 1 |}.

Definition test_creation : SkillOutcome * Marketplace :=
  @createSkill ideal_crypto ideal_floats 1699999999000 "TestSkill" "A test skill" "1.0.0"
    type_skill [("index.js", "module.exports = {};")] creator [] MIT None
    (@market_run ideal_crypto ideal_floats []
       (new_marketplace marketplace_ledger empty_identities)).

Definition test_skill_id : string := default "" (skill_id <$> snd (fst test_creation)).

Definition with_skill : Marketplace := snd test_creation.

Definition listed : Marketplace :=
  @market_run ideal_crypto ideal_floats
    [(1700000000000, ListSkill test_skill_id 50 creator)] with_skill.

Definition market_calls : list (Z * MarketCall) :=
  [(1699999999000,
    CreateSkill "TestSkill" "A test skill" "1.0.0" type_skill
      [("index.js", "module.exports = {};")] creator [] MIT None);
   (1700000000000, ListSkill test_skill_id 50 creator);
   (1700000001000, PurchaseSkill test_skill_id buyer "buyer");
   (1700000002000, AddReview test_skill_id buyer 4 "Good")].

Definition good_review : Review :=
  {| reviewer := buyer; review_rating := 4; comment := "Good";
     review_timestamp := 1700000002000 |}.

Definition reviewed_listing : SkillListing :=
  {| listing_skill_id := test_skill_id; seller := creator; price := 50;
     listed_at := 1700000000000; status := active; sales_count := 1; rating := (4 # 1)%Q;
     reviews := [good_review] |}.

(** * Part II — properties *)

(** ** Ledger engine *)

Section Ledger.
Context `{Crypto}.

Lemma applyTransaction_checked now tx st sender :
  passes_checks tx st sender →
  applyTransaction now tx st =
    if moves_value tx then
      match transfer_block now tx sender (accounts st) with
      | inl msg => (failed msg, st)
      | inr accs => (recorded tx st, record_transaction now tx (hashTransaction tx) accs st)
      end
    else (recorded tx st, record_transaction now tx (hashTransaction tx) (accounts st) st).
Proof.
  intros (Hdup & Hsender & Hnonce & Hsig & Heco).
  unfold applyTransaction, moves_value.
  rewrite Hdup, Hsender.
  destruct (decide (tx_nonce tx ≠ nonce sender + 1)) as [Hne|_]; [done|].
  rewrite Hsig, Heco. reflexivity.
Qed.

(** A call either returns a failure, and then leaves the state alone, or
    passes every check and reaches the tail that stores the transaction. *)
Lemma applyTransaction_cases now tx st :
  (∃ msg, applyTransaction now tx st = (failed msg, st))
  ∨ ∃ sender accs,
      passes_checks tx st sender
      ∧ applyTransaction now tx st
        = (recorded tx st, record_transaction now tx (hashTransaction tx) accs st)
      ∧ (if moves_value tx then transfer_block now tx sender (accounts st) = inr accs
         else accs = accounts st).
Proof.
  unfold applyTransaction, passes_checks, moves_value.
  destruct (transactions st !! hashTransaction tx) eqn:Hdup; [left; eauto|].
  destruct (accounts st !! tx_from tx) as [sender|] eqn:Hsender;
    [|left; destruct (inherited (tx_from tx)); eauto].
  destruct (decide (tx_nonce tx ≠ nonce sender + 1)) as [|Hnonce]; [left; eauto|].
  destruct (verifyTransactionSignature tx) eqn:Hsig; [|left; eauto].
  destruct (validateEconomicConstraints tx (balance sender)) as [msg|[]] eqn:Heco;
    [left; eauto|].
  cbn [negb].
  destruct (bool_decide (tx_type tx = transfer) && truthy (tx_to tx)) eqn:Hmv.
  - destruct (transfer_block now tx sender (accounts st)) as [msg|accs] eqn:Htb;
      [left; eauto|].
    right. exists sender, accs. repeat split; try done. by apply dec_stable.
  - right. exists sender, (accounts st). repeat split; try done. by apply dec_stable.
Qed.

Lemma success_recorded tx st :
  success (recorded tx st) = negb (recipient_push_throws tx st).
Proof. unfold recorded. by destruct (recipient_push_throws tx st). Qed.

Lemma applyTransaction_success now tx st r st' :
  applyTransaction now tx st = (r, st') →
  success r = true →
  ∃ sender accs,
    passes_checks tx st sender
    ∧ recipient_push_throws tx st = false
    ∧ st' = record_transaction now tx (hashTransaction tx) accs st
    ∧ (if moves_value tx then transfer_block now tx sender (accounts st) = inr accs
       else accs = accounts st).
Proof.
  intros Happ Hok.
  destruct (applyTransaction_cases now tx st) as [[msg Hf]|(sender & accs & Hchk & Hr & Haccs)].
  - rewrite Hf in Happ. injection Happ as <- <-. done.
  - rewrite Hr in Happ. injection Happ as <- <-.
    rewrite success_recorded in Hok. apply negb_true_iff in Hok.
    exists sender, accs. done.
Qed.

(** Every failure that [applyTransaction] returns precedes its first
    assignment: the state is then the state before the call. *)
Lemma applyTransaction_returned_failure_atomic now tx st r st' :
  applyTransaction now tx st = (r, st') →
  success r = false →
  exception r = None →
  st' = st.
Proof.
  intros Happ Hfail Hret.
  destruct (applyTransaction_cases now tx st) as [[msg Hf]|(sender & accs & Hchk & Hr & Haccs)].
  - rewrite Hf in Happ. by injection Happ as <- <-.
  - rewrite Hr in Happ. injection Happ as <- <-.
    unfold recorded in *. by destruct (recipient_push_throws tx st).
Qed.

End Ledger.

(** *** Supply and balances under the transfer block *)

Lemma total_supply_insert_fresh accs k a :
  accs !! k = None → total_supply (<[k := a]> accs) = balance a + total_supply accs.
Proof.
  intros Hk. unfold total_supply.
  rewrite map_fold_insert_L; [done| |done].
  intros. lia.
Qed.

Lemma total_supply_alter (f : StoredAccount → StoredAccount) d accs k :
  (∀ a, balance (f a) = balance a + d) →
  is_Some (accs !! k) →
  total_supply (alter f k accs) = total_supply accs + d.
Proof.
  intros Hf [a Ha].
  rewrite (alter_alt_Some f accs k a Ha).
  rewrite <- (insert_delete_eq accs).
  rewrite total_supply_insert_fresh by apply lookup_delete_eq.
  rewrite <- (insert_delete_id accs k a Ha) at 2.
  rewrite total_supply_insert_fresh by apply lookup_delete_eq.
  rewrite Hf. lia.
Qed.

Lemma truthy_Some s : truthy s = true → ∃ to, s = Some to ∧ to ≠ "".
Proof.
  destruct s as [to|]; [|done]. simpl. intros Hne. exists to. split; [done|].
  intros ->. done.
Qed.

Lemma moves_value_true tx :
  moves_value tx = true ↔ tx_type tx = transfer ∧ truthy (tx_to tx) = true.
Proof.
  unfold moves_value. rewrite andb_true_iff, bool_decide_eq_true. done.
Qed.

(** What the assignments of the transfer block leave in the accounts map:
    four assignments when the recipient is an account, the two to the
    sender when it is a built-in object found under an inherited key. *)
Lemma transfer_block_accounts now tx sender accs accs' to :
  tx_to tx = Some to →
  transfer_block now tx sender accs = inr accs' →
  (tx_amount tx + 1 <= balance sender)%Z
  ∧ ((is_Some (accs !! to)
      ∧ accs' =
          alter (set_updated_at now) to
            (alter (set_nonce_active (tx_nonce tx) now) (tx_from tx)
               (alter (add_balance (tx_amount tx)) to
                  (alter (add_balance (- (tx_amount tx + 1))) (tx_from tx) accs))))
     ∨ (accs !! to = None ∧ inherited to = true
        ∧ accs' =
            alter (set_nonce_active (tx_nonce tx) now) (tx_from tx)
              (alter (add_balance (- (tx_amount tx + 1))) (tx_from tx) accs))).
Proof.
  unfold transfer_block. intros ->. cbv zeta.
  destruct (accs !! to) as [recipient|].
  - case_decide; [done|]. intros [= <-]. split; [lia|]. left. split; [by eexists|done].
  - destruct (inherited to) eqn:Hinh; [|done].
    case_decide; [done|]. intros [= <-]. split; [lia|]. by right.
Qed.

(** The same for a recipient that names no inherited property. *)
Lemma transfer_block_ordinary now tx sender accs accs' to :
  tx_to tx = Some to →
  inherited to = false →
  transfer_block now tx sender accs = inr accs' →
  is_Some (accs !! to)
  ∧ (tx_amount tx + 1 <= balance sender)%Z
  ∧ accs' =
      alter (set_updated_at now) to
        (alter (set_nonce_active (tx_nonce tx) now) (tx_from tx)
           (alter (add_balance (tx_amount tx)) to
              (alter (add_balance (- (tx_amount tx + 1))) (tx_from tx) accs))).
Proof.
  intros Hto Hord Htb.
  destruct (transfer_block_accounts _ _ _ _ _ _ Hto Htb) as (Hb & [[Hr ->]|(_ & Hinh & _)]);
    [done|congruence].
Qed.

Lemma transfer_block_supply now tx sender accs accs' to :
  tx_to tx = Some to →
  inherited to = false →
  accs !! tx_from tx = Some sender →
  transfer_block now tx sender accs = inr accs' →
  total_supply accs' = total_supply accs - transaction_fee.
Proof.
  intros Hto Hord Hs Htb.
  destruct (transfer_block_ordinary _ _ _ _ _ _ Hto Hord Htb) as (Hr & _ & ->).
  rewrite (total_supply_alter _ 0); [|intros; simpl; lia|by rewrite !lookup_alter_is_Some].
  rewrite (total_supply_alter _ 0); [|intros; simpl; lia|by rewrite !lookup_alter_is_Some].
  rewrite (total_supply_alter _ (tx_amount tx)); [|intros; simpl; lia|by rewrite !lookup_alter_is_Some].
  rewrite (total_supply_alter _ (- (tx_amount tx + 1))); [|intros; simpl; lia|by rewrite Hs].
  unfold transaction_fee. lia.
Qed.

Lemma transfer_block_sender now tx sender accs accs' to :
  tx_to tx = Some to →
  accs !! tx_from tx = Some sender →
  transfer_block now tx sender accs = inr accs' →
  ∃ sender',
    accs' !! tx_from tx = Some sender'
    ∧ nonce sender' = tx_nonce tx
    ∧ balance sender' =
        if decide (to = tx_from tx) then balance sender - transaction_fee
        else balance sender - (tx_amount tx + transaction_fee).
Proof.
  intros Hto Hs Htb.
  destruct (transfer_block_accounts _ _ _ _ _ _ Hto Htb)
    as (_ & [[Hr ->]|(Hnone & _ & ->)]); unfold transaction_fee.
  - destruct (decide (to = tx_from tx)) as [->|Hne].
    + rewrite !lookup_alter_eq, Hs. simpl. eexists. split; [done|]. simpl. split; [done|lia].
    + rewrite lookup_alter_ne, lookup_alter_eq, lookup_alter_ne, lookup_alter_eq, Hs by done.
      simpl. eexists. split; [done|]. simpl. split; [done|lia].
  - rewrite decide_False by (intros ->; congruence).
    rewrite !lookup_alter_eq, Hs. simpl. eexists. split; [done|]. simpl. split; [done|lia].
Qed.

Lemma transfer_block_recipient now tx sender accs accs' to recipient :
  tx_to tx = Some to →
  to ≠ tx_from tx →
  accs !! to = Some recipient →
  transfer_block now tx sender accs = inr accs' →
  ∃ recipient',
    accs' !! to = Some recipient' ∧ balance recipient' = balance recipient + tx_amount tx.
Proof.
  intros Hto Hne Hrec Htb.
  destruct (transfer_block_accounts _ _ _ _ _ _ Hto Htb)
    as (_ & [[Hr ->]|(Hnone & _ & _)]); [|congruence].
  rewrite lookup_alter_eq, lookup_alter_ne, lookup_alter_eq, lookup_alter_ne, Hrec by done.
  simpl. eexists. split; [done|]. simpl. done.
Qed.

Lemma accounts_record_transaction now tx h accs st :
  accounts (record_transaction now tx h accs st) = accs.
Proof. reflexivity. Qed.

Section LedgerClaims.
Context `{Crypto}.

(** What holds of every accepted transfer to a recipient that names no
    inherited property, in integer arithmetic: the recipient exists, the
    sender's nonce advances by one, and the fee is the only value that
    leaves the ledger.  When sender and recipient are two accounts the
    sender loses [amount + fee] and the recipient gains [amount]; when they
    are one account it loses the fee. *)
Lemma accepted_transfer_with_recipient now tx st r st' :
  moves_value tx = true →
  ordinary_recipient tx →
  applyTransaction now tx st = (r, st') →
  success r = true →
  ∃ to sender sender',
    tx_to tx = Some to
    ∧ accounts st !! tx_from tx = Some sender
    ∧ accounts st' !! tx_from tx = Some sender'
    ∧ is_Some (accounts st !! to)
    ∧ total_supply (accounts st') = total_supply (accounts st) - transaction_fee
    ∧ nonce sender' = nonce sender + 1
    ∧ (to ≠ tx_from tx →
         balance sender' - balance sender = - (tx_amount tx + transaction_fee)
         ∧ getBalance to st' - getBalance to st = tx_amount tx)
    ∧ (to = tx_from tx → balance sender' - balance sender = - transaction_fee).
Proof.
  intros Hmv Hord Happ Hok.
  destruct (applyTransaction_success _ _ _ _ _ Happ Hok)
    as (sender & accs & Hchk & _ & -> & Haccs).
  rewrite Hmv in Haccs.
  apply moves_value_true in Hmv as [_ Hto]. apply truthy_Some in Hto as (to & Hto & _).
  specialize (Hord to Hto).
  pose proof Hchk as (_ & Hs & Hn & _).
  destruct (transfer_block_ordinary _ _ _ _ _ _ Hto Hord Haccs) as (Hr & _ & _).
  destruct (transfer_block_sender _ _ _ _ _ _ Hto Hs Haccs) as (sender' & Hs' & Hn' & Hb').
  exists to, sender, sender'. rewrite accounts_record_transaction.
  repeat split; try done.
  - eapply transfer_block_supply; eauto.
  - lia.
  - rewrite Hb'. case_decide; [done|lia].
  - destruct Hr as [recipient Hrec].
    destruct (transfer_block_recipient _ _ _ _ _ _ _ Hto H0 Hrec Haccs) as (r' & Hr' & Hbr).
    unfold getBalance. rewrite accounts_record_transaction, Hr', Hrec. lia.
  - intros Heq. rewrite Hb'. case_decide; [lia|done].
Qed.

(** The transfer block writes the nonce of the sender only. *)
Lemma transfer_block_other_nonce now tx sender accs accs' to pk :
  tx_to tx = Some to →
  pk ≠ tx_from tx →
  transfer_block now tx sender accs = inr accs' →
  nonce <$> accs' !! pk = nonce <$> accs !! pk.
Proof.
  intros Hto Hne Htb.
  destruct (transfer_block_accounts _ _ _ _ _ _ Hto Htb)
    as (_ & [[_ ->]|(_ & _ & ->)]).
  - destruct (decide (pk = to)) as [->|Hto'].
    + rewrite lookup_alter_eq, lookup_alter_ne, lookup_alter_eq, lookup_alter_ne by done.
      by destruct (accs !! to).
    + by rewrite !lookup_alter_ne.
  - by rewrite !lookup_alter_ne.
Qed.

(** The effect of one call on the nonce of an account [s], when the
    transaction is a transfer to a recipient that names no inherited
    property. *)
Lemma applyTransaction_transfer_nonce now tx st s n :
  moves_value tx = true →
  ordinary_recipient tx →
  nonce_of s st = Some n →
  nonce_of s (snd (applyTransaction now tx st))
  = Some (n + if success (fst (applyTransaction now tx st)) && String.eqb (tx_from tx) s
              then 1 else 0).
Proof.
  intros Hmv Hord Hn.
  pose proof Hmv as Hto. apply moves_value_true in Hto as [_ Hto].
  apply truthy_Some in Hto as (to & Hto & _).
  assert (recipient_push_throws tx st = false) as Hthrows.
  { unfold recipient_push_throws. rewrite Hto, (Hord to Hto). apply andb_false_r. }
  destruct (applyTransaction_cases now tx st) as [[msg Hf]|(sender & accs & Hchk & Hr & Haccs)].
  - rewrite Hf. cbn. rewrite Hn. f_equal. lia.
  - rewrite Hr. cbn [fst snd]. rewrite success_recorded, Hthrows. cbn [negb andb].
    rewrite Hmv in Haccs.
    destruct Hchk as (_ & Hs & Hnonce & _).
    unfold nonce_of in *. rewrite accounts_record_transaction.
    destruct (String.eqb_spec (tx_from tx) s) as [<-|Hne].
    + destruct (transfer_block_sender _ _ _ _ _ _ Hto Hs Haccs) as (sender' & -> & Hn' & _).
      rewrite Hs in Hn. simpl in *. injection Hn as <-. f_equal. lia.
    + rewrite (transfer_block_other_nonce _ _ _ _ _ _ s Hto) by done.
      rewrite Hn. f_equal. lia.
Qed.

(** On transfers to such recipients the nonce does count the accepted
    transactions: after any list of them, the nonce of an account has grown
    by the number of accepted ones that originate from it. *)
Lemma transfers_advance_nonce calls st s n :
  Forall (λ c, moves_value (snd c) = true ∧ ordinary_recipient (snd c)) calls →
  nonce_of s st = Some n →
  nonce_of s (apply_all calls st) = Some (n + accepted_from s calls st).
Proof.
  intros Hall. revert st n. unfold apply_all.
  induction Hall as [|[now tx] calls [Hmv Hord] _ IH]; intros st n Hn.
  - cbn. rewrite Hn. f_equal. lia.
  - cbn [fold_left accepted_from fst snd] in *.
    rewrite (IH _ _ (applyTransaction_transfer_nonce now tx st s n Hmv Hord Hn)).
    f_equal. lia.
Qed.

(** The recipient check does reject a transfer that names neither an
    account of the ledger nor an inherited property: the call fails, the
    state is unchanged, and when the earlier checks pass the error is the
    recipient one. *)
Lemma transfer_to_unknown_recipient_rejected now tx st to :
  tx_type tx = transfer →
  tx_to tx = Some to →
  to ≠ "" →
  inherited to = false →
  accounts st !! to = None →
  ∃ msg,
    applyTransaction now tx st = (failed msg, st)
    ∧ ∀ sender, passes_checks tx st sender → msg = "Recipient account not found".
Proof.
  intros Hty Hto Hne Hord Hnone.
  assert (moves_value tx = true) as Hmv.
  { apply moves_value_true. split; [done|]. rewrite Hto. simpl.
    apply negb_true_iff, String.eqb_neq. done. }
  destruct (applyTransaction_cases now tx st) as [[msg Hf]|(sender & accs & Hchk & Hr & Haccs)].
  - exists msg. split; [done|].
    intros sender Hchk. rewrite (applyTransaction_checked _ _ _ _ Hchk), Hmv in Hf.
    unfold transfer_block in Hf. rewrite Hto, Hnone, Hord in Hf. cbv zeta in Hf.
    unfold failed in Hf. congruence.
  - rewrite Hmv in Haccs. unfold transfer_block in Haccs.
    rewrite Hto, Hnone, Hord in Haccs. done.
Qed.

(** A transaction that is not a transfer naming a recipient skips the
    transfer block: once the earlier checks pass it is stored over
    unchanged accounts, and the call returns success unless the push to the
    recipient's index throws. *)
Lemma applyTransaction_skips_transfer_block now tx st sender :
  moves_value tx = false →
  passes_checks tx st sender →
  applyTransaction now tx st
    = (recorded tx st, record_transaction now tx (hashTransaction tx) (accounts st) st).
Proof.
  intros Hmv Hchk. rewrite (applyTransaction_checked _ _ _ _ Hchk), Hmv. reflexivity.
Qed.

Lemma recorded_no_recipient tx st : truthy (tx_to tx) = false → recorded tx st = ok.
Proof.
  unfold recorded, recipient_push_throws. intros ->. by destruct (tx_to tx).
Qed.

Lemma moves_value_no_recipient tx : truthy (tx_to tx) = false → moves_value tx = false.
Proof. unfold moves_value. intros ->. apply andb_false_r. Qed.

Lemma moves_value_not_transfer tx : tx_type tx ≠ transfer → moves_value tx = false.
Proof. unfold moves_value. intros Hne. rewrite bool_decide_eq_false_2; done. Qed.

(** C6.  A transfer whose [to] field is absent (or the empty string) skips
    the transfer block together with its recipient check: when the earlier
    checks pass, [applyTransaction] answers success and records the
    transaction, with the accounts untouched, instead of returning the
    unknown-recipient failure. *)
Theorem transfer_without_recipient_accepted now tx st sender :
  tx_type tx = transfer →
  truthy (tx_to tx) = false →
  passes_checks tx st sender →
  applyTransaction now tx st
    = (ok, record_transaction now tx (hashTransaction tx) (accounts st) st).
Proof.
  intros _ Hto Hchk.
  rewrite (applyTransaction_skips_transfer_block _ _ _ sender);
    [|by apply moves_value_no_recipient|done].
  by rewrite recorded_no_recipient.
Qed.

(** C5.  An accepted transfer without a recipient burns no fee: the call
    succeeds, every balance is what it was, and the total supply does not
    decrease. *)
Theorem accepted_transfer_without_recipient_burns_nothing now tx st sender :
  tx_type tx = transfer →
  truthy (tx_to tx) = false →
  passes_checks tx st sender →
  success (fst (applyTransaction now tx st)) = true
  ∧ total_supply (accounts (snd (applyTransaction now tx st))) = total_supply (accounts st)
  ∧ ∀ pk, getBalance pk (snd (applyTransaction now tx st)) = getBalance pk st.
Proof.
  intros Hty Hto Hchk.
  rewrite (applyTransaction_skips_transfer_block _ _ _ sender)
    by auto using moves_value_no_recipient.
  rewrite recorded_no_recipient by done.
  done.
Qed.

(** C1.  An accepted [skill_purchase] is not treated as a transfer: it
    leaves every account as it was, so the buyer is not debited, the
    seller is not credited and the buyer's nonce does not advance. *)
Theorem accepted_skill_purchase_moves_nothing now tx st r st' :
  tx_type tx = skill_purchase →
  applyTransaction now tx st = (r, st') →
  success r = true →
  ∀ pk, getBalance pk st' = getBalance pk st ∧ nonce_of pk st' = nonce_of pk st.
Proof.
  intros Hty Happ Hok pk.
  destruct (applyTransaction_success _ _ _ _ _ Happ Hok)
    as (sender & accs & _ & _ & -> & Haccs).
  rewrite moves_value_not_transfer in Haccs by (rewrite Hty; done). subst accs.
  done.
Qed.

(** C4.  An accepted transaction that does not go through the transfer
    block (any type other than [transfer], or a transfer without
    recipient) leaves the sender's nonce where it was, one below the nonce
    the transaction carries. *)
Theorem accepted_outside_transfer_block_keeps_nonce now tx st r st' :
  moves_value tx = false →
  applyTransaction now tx st = (r, st') →
  success r = true →
  nonce_of (tx_from tx) st' = nonce_of (tx_from tx) st
  ∧ nonce_of (tx_from tx) st' = Some (tx_nonce tx - 1).
Proof.
  intros Hmv Happ Hok.
  destruct (applyTransaction_success _ _ _ _ _ Happ Hok)
    as (sender & accs & (_ & Hs & Hn & _) & _ & -> & Haccs).
  rewrite Hmv in Haccs. subst accs.
  unfold nonce_of. rewrite accounts_record_transaction, Hs. simpl.
  split; [done|]. f_equal. lia.
Qed.

(** C7.  Not every failure of [applyTransaction] leaves the ledger as it
    was.  A transfer whose recipient is no account but names a property
    every object inherits ('constructor', 'toString', ...) passes the
    recipient check.  The sender is debited by the amount and the fee, its
    nonce advances, the transaction is stored, and only then the call
    ends - by a [TypeError], not by a returned error: the unknown recipient
    is not reported, and the state is not the state before the call. *)
Theorem transfer_to_inherited_key_not_atomic now tx st sender to :
  tx_type tx = transfer →
  tx_to tx = Some to →
  inherited to = true →
  accounts st !! to = None →
  account_transactions st !! to = None →
  passes_checks tx st sender →
  fst (applyTransaction now tx st) = threw "TypeError"
  ∧ getBalance (tx_from tx) (snd (applyTransaction now tx st))
    = balance sender - (tx_amount tx + transaction_fee)
  ∧ nonce_of (tx_from tx) (snd (applyTransaction now tx st)) = Some (tx_nonce tx)
  ∧ (stored_tx <$> transactions (snd (applyTransaction now tx st)) !! hashTransaction tx)
    = Some tx
  ∧ total_supply (accounts (snd (applyTransaction now tx st)))
    = total_supply (accounts st) - (tx_amount tx + transaction_fee)
  ∧ snd (applyTransaction now tx st) ≠ st.
Proof.
  intros Hty Hto Hinh Hnone Hidx Hchk.
  pose proof Hchk as (Hfresh & Hs & _ & _ & Heco).
  assert (to ≠ tx_from tx) as Hne by (intros ->; congruence).
  assert (truthy (tx_to tx) = true) as Htruthy.
  { rewrite Hto. cbn. destruct (String.eqb_spec to "") as [->|]; done. }
  assert (¬ (balance sender < tx_amount tx + 1)) as Hbal.
  { revert Heco. unfold validateEconomicConstraints, transaction_fee.
    repeat case_decide; done. }
  rewrite (applyTransaction_checked _ _ _ _ Hchk).
  assert (moves_value tx = true) as -> by (by apply moves_value_true).
  unfold transfer_block. rewrite Hto, Hnone, Hinh. cbv zeta.
  rewrite decide_False by done.
  assert (recorded tx st = threw "TypeError") as ->.
  { unfold recorded, recipient_push_throws. rewrite Htruthy, Hto, Hinh, Hidx.
    apply String.eqb_neq in Hne. rewrite Hne. by rewrite bool_decide_eq_true_2. }
  cbn [fst snd]. unfold getBalance, nonce_of, transaction_fee.
  rewrite accounts_record_transaction, !lookup_alter_eq, Hs.
  cbn [record_transaction transactions]. rewrite lookup_insert_eq.
  split; [done|]. split; [cbn; lia|]. split; [done|]. split; [done|]. split.
  - rewrite (total_supply_alter _ 0); [|intros; simpl; lia|by rewrite lookup_alter_is_Some, Hs].
    rewrite (total_supply_alter _ (- (tx_amount tx + 1))); [|intros; simpl; lia|by rewrite Hs].
    lia.
  - intros Heq.
    assert (is_Some (transactions st !! hashTransaction tx)) as [stored Hstored]; [|congruence].
    rewrite <- Heq. cbn [record_transaction transactions]. rewrite lookup_insert_eq. eauto.
Qed.

End LedgerClaims.

(** Alice's transfer of 100 shells to 'constructor': the call throws, and
    Alice has paid 101 shells to nobody. *)
Lemma transfer_to_inherited_key_not_atomic_witness :
  fst (@applyTransaction ideal_crypto 7 transfer_to_constructor two_accounts)
    = threw "TypeError"
  ∧ getBalance alice (snd (@applyTransaction ideal_crypto 7 transfer_to_constructor two_accounts))
    = 899
  ∧ nonce_of alice (snd (@applyTransaction ideal_crypto 7 transfer_to_constructor two_accounts))
    = Some 1
  ∧ total_supply
      (accounts (snd (@applyTransaction ideal_crypto 7 transfer_to_constructor two_accounts)))
    = total_supply (accounts two_accounts) - 101
  ∧ snd (@applyTransaction ideal_crypto 7 transfer_to_constructor two_accounts) ≠ two_accounts.
Proof.
  destruct (@transfer_to_inherited_key_not_atomic ideal_crypto 7 transfer_to_constructor
              two_accounts alice_account "constructor")
    as (Hthrow & Hbalance & Hnonce & _ & Hsupply & Hstate).
  - reflexivity.
  - reflexivity.
  - reflexivity.
  - vm_compute. reflexivity.
  - vm_compute. reflexivity.
  - unfold passes_checks. repeat split; vm_compute; reflexivity.
  - split; [exact Hthrow|]. split; [exact Hbalance|]. split; [exact Hnonce|].
    split; [exact Hsupply|exact Hstate].
Defined.

(** A transfer of 100 shells that names no recipient is accepted. *)
Lemma transfer_without_recipient_accepted_witness :
  @applyTransaction ideal_crypto 7 (transfer_from_alice None 100 1) two_accounts
  = (ok, record_transaction 7 (transfer_from_alice None 100 1)
           (@hashTransaction ideal_crypto (transfer_from_alice None 100 1))
           (accounts two_accounts) two_accounts).
Proof.
  apply (@transfer_without_recipient_accepted ideal_crypto 7
           (transfer_from_alice None 100 1) two_accounts alice_account).
  - reflexivity.
  - reflexivity.
  - unfold passes_checks. repeat split; vm_compute; reflexivity.
Defined.

(** The same holds when [to] is the empty string; the supply stays at 1100. *)
Lemma accepted_transfer_without_recipient_burns_nothing_witness :
  success (fst (@applyTransaction ideal_crypto 7 (transfer_from_alice (Some "") 100 1) two_accounts))
    = true
  ∧ total_supply (accounts (snd (@applyTransaction ideal_crypto 7
                                   (transfer_from_alice (Some "") 100 1) two_accounts)))
    = total_supply (accounts two_accounts)
  ∧ ∀ pk, getBalance pk (snd (@applyTransaction ideal_crypto 7
                                (transfer_from_alice (Some "") 100 1) two_accounts))
          = getBalance pk two_accounts.
Proof.
  apply (@accepted_transfer_without_recipient_burns_nothing ideal_crypto 7
           (transfer_from_alice (Some "") 100 1) two_accounts alice_account).
  - reflexivity.
  - reflexivity.
  - unfold passes_checks. repeat split; vm_compute; reflexivity.
Defined.

(** Scenario 5 on the code: the purchase at price 50 succeeds, the buyer
    still holds 1000 shells at nonce 0 and the creator still holds none. *)
Lemma accepted_skill_purchase_moves_nothing_witness :
  success (fst (@applyTransaction ideal_crypto 7 scenario5_purchase marketplace_ledger)) = true
  ∧ getBalance buyer (snd (@applyTransaction ideal_crypto 7 scenario5_purchase marketplace_ledger))
    = 1000
  ∧ getBalance creator (snd (@applyTransaction ideal_crypto 7 scenario5_purchase marketplace_ledger))
    = 0
  ∧ nonce_of buyer (snd (@applyTransaction ideal_crypto 7 scenario5_purchase marketplace_ledger))
    = Some 0.
Proof.
  pose proof (@accepted_skill_purchase_moves_nothing ideal_crypto 7 scenario5_purchase
                marketplace_ledger
                (fst (@applyTransaction ideal_crypto 7 scenario5_purchase marketplace_ledger))
                (snd (@applyTransaction ideal_crypto 7 scenario5_purchase marketplace_ledger))
                eq_refl (surjective_pairing _)) as Hsame.
  assert (success (fst (@applyTransaction ideal_crypto 7 scenario5_purchase marketplace_ledger))
          = true) as Hok by (vm_compute; reflexivity).
  split; [exact Hok|].
  destruct (Hsame Hok buyer) as [-> ->]. destruct (Hsame Hok creator) as [-> _].
  repeat split; vm_compute; reflexivity.
Defined.

(** Two mint transactions of the same sender, both carrying nonce 1, are
    both accepted; the sender's nonce is still 0 afterwards. *)
Lemma accepted_outside_transfer_block_keeps_nonce_witness :
  @accepted_from ideal_crypto alice two_mints two_accounts = 2
  ∧ nonce_of alice (@apply_all ideal_crypto two_mints two_accounts) = Some 0.
Proof.
  split; [vm_compute; reflexivity|].
  pose (st1 := snd (@applyTransaction ideal_crypto 7 (mint_from_alice 1) two_accounts)).
  assert (success (fst (@applyTransaction ideal_crypto 8 (mint_from_alice 2) st1)) = true)
    as Hok by (vm_compute; reflexivity).
  apply (@accepted_outside_transfer_block_keeps_nonce ideal_crypto 8 (mint_from_alice 2) st1
           (fst (@applyTransaction ideal_crypto 8 (mint_from_alice 2) st1))
           (snd (@applyTransaction ideal_crypto 8 (mint_from_alice 2) st1))).
  - reflexivity.
  - apply surjective_pairing.
  - exact Hok.
Defined.

(** ** Identity registry *)

(** A successful [registerBot] stores the stake it was given. *)
Lemma registerBot_success now pk stake attestation st r st' :
  registerBot now pk stake attestation st = (r, st') →
  success r = true →
  (if truthy attestation then attestation_reduction else registration) <= stake
  ∧ ∃ identity, bots st' !! pk = Some identity ∧ staked_amount identity = stake.
Proof.
  unfold registerBot.
  destruct (bots st !! pk) as [identity|] eqn:Hpk; [|by intros [= <- <-]].
  case_decide as Hstake; [by intros [= <- <-]|].
  intros Heq _. split; [lia|].
  destruct attestation as [attester|]; [destruct (truthy (Some attester))|];
    injection Heq as <- <-; simpl;
    rewrite ?lookup_alter_eq, Hpk; simpl; eexists; (split; [done|done]).
Qed.

(** C10.  After a successful [registerBot] with a stake below 50 - which
    only the attestation discount allows, for stakes from 25 on -
    [isRegistered] answers [false] for that bot at every time. *)
Theorem discounted_registration_not_registered now pk stake attester st r st' :
  registerBot now pk stake (Some attester) st = (r, st') →
  success r = true →
  attestation_reduction <= stake < registration →
  ∀ now', isRegistered now' pk st' = false.
Proof.
  intros Hreg Hok [_ Hlt] now'.
  destruct (registerBot_success _ _ _ _ _ _ _ Hreg Hok) as (_ & identity & Hpk & Hstake).
  unfold isRegistered. rewrite Hpk, Hstake.
  rewrite bool_decide_eq_false_2; [done|lia].
Qed.

(** C8.  [registerBot] never consults [canAttest]: naming any non-empty
    attester, even one that may not attest (reputation below 100, or no
    identity at all), lowers the required stake to 25, so a stake from 25
    up to 49 registers successfully. *)
Theorem registerBot_ignores_attester_reputation now pk stake attester st :
  is_Some (bots st !! pk) →
  attester ≠ "" →
  canAttest attester st = false →
  attestation_reduction <= stake < registration →
  success (fst (registerBot now pk stake (Some attester) st)) = true
  ∧ (staked_amount <$> bots (snd (registerBot now pk stake (Some attester) st)) !! pk) = Some stake.
Proof.
  intros [identity Hpk] Hne _ [Hge _].
  unfold registerBot. rewrite Hpk.
  assert (truthy (Some attester) = true) as ->.
  { simpl. apply negb_true_iff, String.eqb_neq. done. }
  case_decide; [lia|]. simpl.
  rewrite lookup_alter_eq, lookup_alter_eq, Hpk. done.
Qed.

(** A newcomer registers with 25 shells on the word of an attester whose
    reputation is 0. *)
Lemma registerBot_ignores_attester_reputation_witness :
  canAttest "attester" two_bots = false
  ∧ success (fst (registerBot 1000 "newcomer" 25 (Some "attester") two_bots)) = true
  ∧ (staked_amount <$> bots (snd (registerBot 1000 "newcomer" 25 (Some "attester") two_bots))
                       !! "newcomer") = Some 25.
Proof.
  split; [reflexivity|].
  apply (registerBot_ignores_attester_reputation 1000 "newcomer" 25 "attester" two_bots).
  - vm_compute. eauto.
  - discriminate.
  - reflexivity.
  - unfold attestation_reduction, registration. lia.
Defined.

(** With an attester of reputation 300 the same registration succeeds, and
    the bot is then reported as not registered. *)
Lemma discounted_registration_not_registered_witness :
  canAttest "attester" reputable_attester = true
  ∧ success (fst (registerBot 1000 "newcomer" 25 (Some "attester") reputable_attester)) = true
  ∧ ∀ now',
      isRegistered now' "newcomer"
        (snd (registerBot 1000 "newcomer" 25 (Some "attester") reputable_attester)) = false.
Proof.
  split; [reflexivity|]. split; [vm_compute; reflexivity|].
  apply (discounted_registration_not_registered 1000 "newcomer" 25 "attester" reputable_attester
           (fst (registerBot 1000 "newcomer" 25 (Some "attester") reputable_attester))).
  - apply surjective_pairing.
  - vm_compute. reflexivity.
  - unfold attestation_reduction, registration. lia.
Defined.

(** ** Canonical hashing *)

(** Induction on JSON values, with the hypothesis available for every element
    of an array and every property value of an object. *)
Fixpoint json_nested_ind (P : json → Prop)
    (Hundefined : P JUndefined) (Hnull : P JNull) (Hbool : ∀ b, P (JBool b))
    (Hnumber : ∀ n, P (JNumber n)) (Hstring : ∀ s, P (JString s))
    (Harray : ∀ items, Forall P items → P (JArray items))
    (Hobject : ∀ props, Forall (λ kv, P (snd kv)) props → P (JObject props))
    (v : json) : P v :=
  let rec := json_nested_ind P Hundefined Hnull Hbool Hnumber Hstring Harray Hobject in
  match v with
  | JUndefined => Hundefined
  | JNull => Hnull
  | JBool b => Hbool b
  | JNumber n => Hnumber n
  | JString s => Hstring s
  | JArray items =>
      Harray items
        ((fix go (l : list json) : Forall P l :=
            match l with
            | [] => @List.Forall_nil _ P
            | x :: rest => @List.Forall_cons _ P x rest (rec x) (go rest)
            end) items)
  | JObject props =>
      Hobject props
        ((fix go (l : list (string * json)) : Forall (λ kv, P (snd kv)) l :=
            match l with
            | [] => @List.Forall_nil _ (λ kv, P (snd kv))
            | kv :: rest => @List.Forall_cons _ (λ kv, P (snd kv)) kv rest (rec (snd kv)) (go rest)
            end) props)
  end.

(** *** The key order is a total order *)

Lemma string_le_lt_eq a b : string_le a b ↔ OrderedTypeEx.String_as_OT.lt a b ∨ a = b.
Proof.
  unfold string_le, String.leb.
  destruct (String.compare a b) eqn:Hc.
  - apply OrderedTypeEx.String_as_OT.cmp_eq in Hc. naive_solver.
  - apply OrderedTypeEx.String_as_OT.cmp_lt in Hc. naive_solver.
  - split; [done|]. intros [Hlt| ->].
    + apply OrderedTypeEx.String_as_OT.cmp_lt in Hlt. unfold OrderedTypeEx.String_as_OT.cmp in Hlt. congruence.
    + assert (OrderedTypeEx.String_as_OT.cmp b b = Eq) as Heq by (by apply OrderedTypeEx.String_as_OT.cmp_eq).
      unfold OrderedTypeEx.String_as_OT.cmp in Heq. congruence.
Qed.

#[global] Instance string_le_total : Total string_le.
Proof.
  intros a b. unfold string_le.
  destruct (String.leb_total a b) as [->| ->]; [by left|by right].
Qed.

#[global] Instance string_le_trans : Transitive string_le.
Proof.
  intros a b c. rewrite !string_le_lt_eq.
  intros [Hab| ->] [Hbc| ->]; eauto using OrderedTypeEx.String_as_OT.lt_trans.
Qed.

#[global] Instance string_le_antisym : AntiSymm (=) string_le.
Proof.
  intros a b Hab Hba. apply String.leb_antisym; by apply Is_true_true.
Qed.

Lemma sort_keys_perm (ks1 ks2 : list string) :
  ks1 ≡ₚ ks2 → merge_sort string_le ks1 = merge_sort string_le ks2.
Proof.
  intros Hperm. apply (Sorted_unique string_le).
  - apply Sorted_merge_sort, _.
  - apply Sorted_merge_sort, _.
  - by rewrite !merge_sort_Permutation.
Qed.

(** *** Lookup does not depend on the order of the properties *)

Lemma object_get_perm k (props1 props2 : list (string * json)) :
  NoDup (map fst props1) → props1 ≡ₚ props2 → object_get k props1 = object_get k props2.
Proof.
  intros Hnd Hperm. induction Hperm as [|[k' v] l1 l2 Hperm IH|[k1 v1] [k2 v2] l|l1 l2 l3 H12 IH12 H23 IH23].
  - done.
  - simpl. destruct (String.eqb_spec k' k); [done|]. apply IH. by inversion Hnd.
  - simpl. destruct (String.eqb_spec k2 k) as [->|], (String.eqb_spec k1 k) as [->|]; try done.
    simpl in Hnd. apply NoDup_cons in Hnd as [Hnotin _]. set_solver.
  - rewrite IH12 by done. apply IH23. by rewrite <- H12.
Qed.

Lemma replacer_perm (props1 props2 : list (string * json)) :
  NoDup (map fst props1) → props1 ≡ₚ props2 →
  replacer (JObject props1) = replacer (JObject props2).
Proof.
  intros Hnd Hperm. simpl.
  rewrite (sort_keys_perm (map fst props1) (map fst props2)) by (by rewrite Hperm).
  f_equal. apply map_ext. intros k. f_equal. by apply object_get_perm.
Qed.

(** *** Invariance of the canonical form *)

Lemma sort_object_keys_reordered v1 :
  json_wf v1 → ∀ v2, reordered v1 v2 → sort_object_keys v1 = sort_object_keys v2.
Proof.
  induction v1 as [| | | | |items IH|props IH] using json_nested_ind;
    intros Hwf v2 Hre; inversion Hre as [| | | | |? items2 Hitems|? props' props2 Hprops Hperm];
    subst; try done.
  - simpl. f_equal. clear Hre. revert Hwf IH.
    induction Hitems as [|x y l1 l2 Hxy _ IHl]; [done|].
    simpl. intros [Hx Hl] IH. apply Forall_cons in IH as [IHx IHrest].
    f_equal; [by apply IHx|by apply IHl].
  - cbn [sort_object_keys]. destruct Hwf as [Hnd Hwf].
    assert (map (λ kv, (fst kv, sort_object_keys (snd kv))) props
            = map (λ kv, (fst kv, sort_object_keys (snd kv))) props') as ->.
    { clear Hre Hnd Hperm. revert Hwf IH.
      induction Hprops as [|[k v] [k' v'] l1 l2 [Hk Hv] _ IHl]; [done|].
      simpl in *. intros [Hx Hl] IH. apply Forall_cons in IH as [IHx IHrest]. subst k'.
      f_equal; [f_equal; by apply IHx|by apply IHl]. }
    apply replacer_perm.
    + assert (map fst (map (λ kv, (fst kv, sort_object_keys (snd kv))) props')
              = map fst props) as ->; [|done].
      clear -Hprops. induction Hprops as [|? ? ? ? [? _]]; simpl; congruence.
    + by apply Permutation_map.
Qed.

Section Hashing.
Context `{Crypto}.

(** C9.  Reordering the keys of the objects of a value, at any nesting
    level, changes neither its canonical serialization nor its hash. *)
Theorem hashData_key_order_invariant v1 v2 :
  json_wf v1 →
  reordered v1 v2 →
  canonicalJson v1 = canonicalJson v2
  ∧ hashData (HObject v1) = hashData (HObject v2).
Proof.
  intros Hwf Hre. unfold hashData, canonicalJson.
  by rewrite (sort_object_keys_reordered v1 Hwf v2 Hre).
Qed.

End Hashing.

(** [{"b": 2, "a": {"y": [{"q": 1, "p": 2}], "x": null}}] and the same object
    written [{"a": {"x": null, "y": [{"p": 2, "q": 1}]}, "b": 2}]. *)
Lemma hashData_key_order_invariant_witness :
  canonicalJson sample_object = canonicalJson sample_object_reordered
  ∧ @hashData ideal_crypto (HObject sample_object)
    = @hashData ideal_crypto (HObject sample_object_reordered).
Proof.
  apply (@hashData_key_order_invariant ideal_crypto).
  - simpl. repeat split; refine (bool_decide_unpack _ _); vm_compute; exact I.
  - unfold sample_object, sample_object_reordered.
    eapply reordered_object; [|apply perm_swap].
    repeat constructor; simpl.
    eapply reordered_object; [|apply perm_swap].
    repeat constructor; simpl.
    eapply reordered_object; [|apply perm_swap].
    repeat constructor.
Defined.

(** *** The model of the replacer against the order of the source *)

Lemma object_get_map (g : json → json) k (props : list (string * json)) :
  g JUndefined = JUndefined →
  object_get k (map (λ kv, (fst kv, g (snd kv))) props) = g (object_get k props).
Proof.
  intros Hg. induction props as [|[k' v] rest IH]; [done|]. simpl.
  by destruct (String.eqb k' k).
Qed.

(** [JSON.stringify] applies the replacer to an object and then descends
    into the properties of what the replacer returned; [sort_object_keys]
    rebuilds the children first.  The two agree. *)
Lemma sort_object_keys_replacer_first props :
  sort_object_keys (JObject props) =
    match replacer (JObject props) with
    | JObject sorted => JObject (map (λ kv, (fst kv, sort_object_keys (snd kv))) sorted)
    | other => other
    end.
Proof.
  cbn [sort_object_keys replacer]. rewrite !map_map. cbn [fst snd]. f_equal.
  apply map_ext. intros k. f_equal. by apply (object_get_map sort_object_keys).
Qed.

Lemma filter_all {A} (P : A → Prop) `{∀ x, Decision (P x)} (l : list A) :
  Forall P l → filter P l = l.
Proof.
  induction 1 as [|x l Hx _ IH]; [done|].
  rewrite filter_cons_True by done. by rewrite IH.
Qed.

Lemma filter_none {A} (P : A → Prop) `{∀ x, Decision (P x)} (l : list A) :
  Forall (λ x, ¬ P x) l → filter P l = [].
Proof.
  induction 1 as [|x l Hx _ IH]; [done|].
  by rewrite filter_cons_False.
Qed.

(** On an object none of whose keys is an array index or ["__proto__"], the
    replacer returns the properties in sorted key order. *)
Lemma replacer_sorts_keys props :
  Forall (λ k, is_array_index k = false ∧ k ≠ "__proto__") (map fst props) →
  ∃ sorted,
    replacer (JObject props) = JObject sorted
    ∧ map fst sorted = merge_sort string_le (map fst props)
    ∧ Sorted string_le (map fst sorted).
Proof.
  intros Hkeys.
  assert (Forall (λ k, is_array_index k = false ∧ k ≠ "__proto__")
            (merge_sort string_le (map fst props))) as Hsorted.
  { by rewrite merge_sort_Permutation. }
  eexists. split; [reflexivity|].
  assert (∀ ks : list string, map fst (map (λ k, (k, object_get k props)) ks) = ks) as Hfst.
  { intros ks. rewrite map_map. simpl. apply map_id. }
  rewrite Hfst.
  rewrite (filter_all (λ k, k ≠ "__proto__")) by (eapply Forall_impl; [done|]; simpl; intros k [_ Hk]; done).
  unfold own_property_keys.
  rewrite (filter_none (λ k, is_array_index k = true))
    by (eapply Forall_impl; [done|]; simpl; intros k [-> _]; done).
  rewrite (filter_all (λ k, is_array_index k ≠ true))
    by (eapply Forall_impl; [done|]; simpl; intros k [-> _]; done).
  split; [done|]. apply Sorted_merge_sort, _.
Qed.

(** ** PBFT validator *)

Section Consensus.
Context `{Crypto}.

(** *** What the handlers leave alone *)

Lemma message_log_commitTransaction now digest tx v :
  message_log (commitTransaction now digest tx v) = message_log v.
Proof. unfold commitTransaction. destruct (applyTransaction _ _ _) as [[[] ?] ?]; done. Qed.

Lemma message_log_handleCommit now m v :
  message_log (handleCommit now m v) = message_log v.
Proof.
  unfold handleCommit. repeat case_match; try done.
  by rewrite message_log_commitTransaction.
Qed.

(** *** Own messages verify when the keys match *)

Lemma set_signature_blank sig m :
  msg_signature m = "" → set_signature "" (set_signature sig m) = m.
Proof. destruct m. simpl. by intros ->. Qed.

Lemma verifyMessage_own cfg m :
  own_keys_match cfg →
  msg_validator m = validator_id cfg →
  msg_signature m = "" →
  verifyMessage cfg (sign_consensus_message cfg m) = true.
Proof.
  intros [Hpk Hverify] Hid Hblank.
  unfold verifyMessage, sign_consensus_message.
  rewrite set_signature_blank by done.
  cbn [msg_validator msg_signature set_signature]. rewrite Hid, String.eqb_refl.
  cbn [truthy]. apply String.eqb_neq in Hpk. rewrite Hpk.
  apply Hverify.
Qed.

(** What [handlePrePrepare] does with the validator's own PRE-PREPARE for a
    pending digest. *)
Lemma handlePrePrepare_own now v digest seq p :
  own_keys_match (config v) →
  leader_id (state v) = validator_id (config v) →
  pending v !! digest = Some p →
  handlePrePrepare now
    (sign_consensus_message (config v)
       {| msg_type := pre_prepare; msg_view := view (state v); msg_sequence := seq;
          msg_digest := digest; msg_validator := validator_id (config v);
          msg_signature := "" |}) v
  = broadcastPrepare now digest (set_pending (<[digest := mark_pre_prepared p]> (pending v)) v).
Proof.
  intros Hkeys Hleader Hp. unfold handlePrePrepare.
  rewrite verifyMessage_own by done.
  cbn [sign_consensus_message set_signature msg_type msg_view msg_validator msg_digest negb].
  rewrite !bool_decide_eq_true_2 by done. rewrite Hleader, String.eqb_refl, Hp. done.
Qed.

Lemma electLeader_initial cfg : electLeader cfg 0 = validator_id cfg.
Proof. unfold electLeader. destruct (peers cfg); done. Qed.

End Consensus.

Section Quorum.
Context `{Crypto}.

Lemma vote_count_add_vote digest validator votes :
  vote_count digest (add_vote digest validator votes)
  = Z.of_nat (size (default ∅ (votes !! digest) ∪ {[validator]})).
Proof. unfold vote_count, add_vote. by rewrite lookup_insert_eq. Qed.

(** What [handlePrepare] does with an acceptable PREPARE for a pending digest
    that has not reached the prepared stage: it emits the COMMIT exactly when
    the recorded votes, this one included, number at least [quorum - 1]. *)
Lemma handlePrepare_threshold now message v p :
  msg_type message = prepare →
  verifyMessage (config v) message = true →
  msg_view message = view (state v) →
  pending v !! msg_digest message = Some p →
  tx_prepared p = false →
  let votes := prepare_votes (msg_digest message) v ∪ {[msg_validator message]} in
  let v1 := set_state (set_prepared (add_vote (msg_digest message) (msg_validator message)
                                       (prepared (state v))) (state v)) v in
  handlePrepare now message v =
    if decide (Z.of_nat (size votes) + 1 >= quorum (config v)) then
      broadcastCommit now (msg_digest message)
        (set_pending (<[msg_digest message := mark_prepared p]> (pending v1)) v1)
    else v1.
Proof.
  intros Hty Hver Hview Hp Hprep votes v1. unfold handlePrepare.
  rewrite Hver, !bool_decide_eq_true_2 by done. cbn [negb]. cbv zeta.
  cbn [state set_state set_prepared prepared config pending].
  rewrite vote_count_add_vote, Hp, Hprep. done.
Qed.

(** [handleCommit] counts the same way before it applies the transaction. *)
Lemma handleCommit_threshold now message v p :
  msg_type message = commit →
  verifyMessage (config v) message = true →
  msg_view message = view (state v) →
  pending v !! msg_digest message = Some p →
  tx_committed p = false →
  let votes := default ∅ (committed (state v) !! msg_digest message) ∪ {[msg_validator message]} in
  let v1 := set_state (set_committed (add_vote (msg_digest message) (msg_validator message)
                                        (committed (state v))) (state v)) v in
  handleCommit now message v =
    if decide (Z.of_nat (size votes) + 1 >= quorum (config v)) then
      commitTransaction now (msg_digest message) (pending_tx p)
        (set_pending (<[msg_digest message := mark_committed p]> (pending v1)) v1)
    else v1.
Proof.
  intros Hty Hver Hview Hp Hcom votes v1. unfold handleCommit.
  rewrite Hver, !bool_decide_eq_true_2 by done. cbn [negb]. cbv zeta.
  cbn [state set_state set_committed committed config pending].
  rewrite vote_count_add_vote, Hp, Hcom. done.
Qed.

(** C2.  [handlePrepare] adds 1 to the size of the recorded PREPARE set, and
    the validator's own PREPARE is a member of that set like any other: the
    COMMIT is emitted as soon as [quorum - 1 = 2f] distinct validators have
    a PREPARE recorded for the digest, one short of the [2f + 1] of the
    claim. *)
Theorem handlePrepare_commits_one_vote_short now message v p :
  msg_type message = prepare →
  verifyMessage (config v) message = true →
  msg_view message = view (state v) →
  pending v !! msg_digest message = Some p →
  tx_prepared p = false →
  Z.of_nat (size (prepare_votes (msg_digest message) v ∪ {[msg_validator message]}))
    = 2 * fault_bound (config v) →
  ∃ commit_message,
    message_log (handlePrepare now message v) = (message_log v ++ [commit_message])%list
    ∧ msg_type commit_message = commit
    ∧ msg_digest commit_message = msg_digest message
    ∧ msg_validator commit_message = validator_id (config v).
Proof.
  intros Hty Hver Hview Hp Hprep Hsize.
  rewrite (handlePrepare_threshold now message v p) by done. cbv zeta.
  rewrite decide_True by (unfold quorum; lia).
  unfold broadcastCommit. rewrite message_log_handleCommit.
  eexists. split; [reflexivity|]. done.
Qed.

(** C3.  [handlePrepare] never reads [pre_prepared]; the flag is written by
    [handlePrePrepare] and tested nowhere.  For a pending digest whose
    entry has no PRE-PREPARE recorded, an acceptable PREPARE that brings the
    count to the quorum makes the validator emit its COMMIT all the same. *)
Theorem handlePrepare_commits_without_pre_prepare now message v p :
  msg_type message = prepare →
  verifyMessage (config v) message = true →
  msg_view message = view (state v) →
  pending v !! msg_digest message = Some p →
  pre_prepared p = false →
  tx_prepared p = false →
  Z.of_nat (size (prepare_votes (msg_digest message) v ∪ {[msg_validator message]})) + 1
    >= quorum (config v) →
  ∃ commit_message,
    message_log (handlePrepare now message v) = (message_log v ++ [commit_message])%list
    ∧ msg_type commit_message = commit
    ∧ msg_digest commit_message = msg_digest message
    ∧ msg_validator commit_message = validator_id (config v).
Proof.
  intros Hty Hver Hview Hp _ Hprep Hsize.
  rewrite (handlePrepare_threshold now message v p) by done. cbv zeta.
  rewrite decide_True by done.
  unfold broadcastCommit. rewrite message_log_handleCommit.
  eexists. split; [reflexivity|]. done.
Qed.

End Quorum.

(** Four validators, so [f = 1] and [2f + 1 = 3].  validator-1 has the
    payment pending with its own PREPARE recorded; the PREPARE of validator-2
    alone then makes it emit the COMMIT, and the COMMIT of validator-2 alone
    makes it apply the payment. *)
Lemma handlePrepare_commits_one_vote_short_witness :
  quorum four_validators = 3
  ∧ prepare_votes payment_digest after_submit ∪ {[msg_validator peer_prepare]}
    = {["validator-1"; "validator-2"]}
  ∧ (∃ commit_message,
       message_log (@handlePrepare ideal_crypto 11 peer_prepare after_submit)
       = (message_log after_submit ++ [commit_message])%list
       ∧ msg_type commit_message = commit
       ∧ msg_digest commit_message = msg_digest peer_prepare
       ∧ msg_validator commit_message = validator_id (config after_submit))
  ∧ getBalance bob
      (ledger (@run ideal_crypto
                 [(11, DeliverPrepare peer_prepare); (12, DeliverCommit peer_commit)]
                 after_submit)) = 200.
Proof.
  split; [reflexivity|]. split; [vm_compute; reflexivity|]. split; [|vm_compute; reflexivity].
  apply (@handlePrepare_commits_one_vote_short ideal_crypto 11 peer_prepare after_submit
           {| pending_tx := payment; received_at := 10; pre_prepared := true;
              tx_prepared := false; tx_committed := false |}).
  - reflexivity.
  - vm_compute. reflexivity.
  - reflexivity.
  - vm_compute. reflexivity.
  - reflexivity.
  - vm_compute. reflexivity.
Defined.

(** A validator whose configured public key does not match its private key
    (two validators, quorum 1): its own PRE-PREPARE for the payment fails
    verification and is not recorded, and the PREPARE of its peer makes it
    emit the COMMIT. *)
Lemma handlePrepare_commits_without_pre_prepare_witness :
  pending after_mismatched_submit !! payment_digest
    = Some {| pending_tx := payment; received_at := 10; pre_prepared := false;
              tx_prepared := false; tx_committed := false |}
  ∧ ∃ commit_message,
      message_log (@handlePrepare ideal_crypto 11 peer_prepare after_mismatched_submit)
      = (message_log after_mismatched_submit ++ [commit_message])%list
      ∧ msg_type commit_message = commit
      ∧ msg_digest commit_message = msg_digest peer_prepare
      ∧ msg_validator commit_message = validator_id (config after_mismatched_submit).
Proof.
  split; [vm_compute; reflexivity|].
  apply (@handlePrepare_commits_without_pre_prepare ideal_crypto 11 peer_prepare
           after_mismatched_submit
           {| pending_tx := payment; received_at := 10; pre_prepared := false;
              tx_prepared := false; tx_committed := false |}).
  - reflexivity.
  - vm_compute. reflexivity.
  - reflexivity.
  - vm_compute. reflexivity.
  - reflexivity.
  - reflexivity.
  - vm_compute. discriminate.
Defined.

(** * Part III — further properties of the code *)

(** ** Ledger: accounts, log and history *)

Section LedgerFurther.
Context `{Crypto}.

(** The state after a call: the state before it when a failure is
    returned, and otherwise the state the tail leaves, whether the call then
    returns success or its last push throws. *)
Lemma applyTransaction_state now tx st :
  (snd (applyTransaction now tx st) = st
   ∧ success (fst (applyTransaction now tx st)) = false)
  ∨ ∃ sender accs,
      passes_checks tx st sender
      ∧ snd (applyTransaction now tx st)
        = record_transaction now tx (hashTransaction tx) accs st
      ∧ (if moves_value tx then transfer_block now tx sender (accounts st) = inr accs
         else accs = accounts st)
      ∧ success (fst (applyTransaction now tx st)) = negb (recipient_push_throws tx st).
Proof.
  destruct (applyTransaction_cases now tx st) as [[msg ->]|(sender & accs & Hchk & -> & Haccs)].
  - by left.
  - right. exists sender, accs. cbn [fst snd]. by rewrite success_recorded.
Qed.

Lemma applyTransaction_accepted now tx st :
  success (fst (applyTransaction now tx st)) = true →
  ∃ sender accs,
    passes_checks tx st sender
    ∧ snd (applyTransaction now tx st) = record_transaction now tx (hashTransaction tx) accs st
    ∧ (if moves_value tx then transfer_block now tx sender (accounts st) = inr accs
       else accs = accounts st).
Proof.
  intros Hok. destruct (applyTransaction now tx st) as [r st'] eqn:Happ.
  destruct (applyTransaction_success now tx st r st' Happ Hok)
    as (sender & accs & ? & _ & ? & ?).
  by exists sender, accs.
Qed.

Lemma applyTransaction_accepted_no_throw now tx st :
  success (fst (applyTransaction now tx st)) = true → recipient_push_throws tx st = false.
Proof.
  intros Hok. destruct (applyTransaction now tx st) as [r st'] eqn:Happ.
  by destruct (applyTransaction_success now tx st r st' Happ Hok) as (? & ? & _ & ? & _).
Qed.

(** X1.  [createAccount] succeeds exactly when the key is free.  It then
    gives the account the initial balance and nonce 0, leaves every other
    account and the transaction log alone, and a second creation of the same
    key throws. *)
Theorem createAccount_fresh now pk initial_balance st :
  (is_Some (createAccount now pk initial_balance st) ↔ accountExists pk st = false)
  ∧ ∀ st',
      createAccount now pk initial_balance st = Some st' →
      getBalance pk st' = initial_balance
      ∧ nonce_of pk st' = Some 0
      ∧ accountExists pk st' = true
      ∧ (∀ other, other ≠ pk → accounts st' !! other = accounts st !! other)
      ∧ transactions st' = transactions st
      ∧ ∀ now' balance', createAccount now' pk balance' st' = None.
Proof.
  unfold createAccount, accountExists. split.
  - destruct (accounts st !! pk) eqn:Hpk.
    + split; [by intros [? ?]|]. intros Hex. apply orb_false_iff in Hex as [Hex _].
      apply bool_decide_eq_false in Hex. destruct Hex. eauto.
    + destruct (inherited pk).
      * split; [by intros [? ?]|]. by rewrite orb_true_r.
      * split; [|eauto]. intros _. rewrite orb_false_r.
        apply bool_decide_eq_false. by intros [? ?].
  - intros st'. destruct (accounts st !! pk) eqn:Hpk; [done|].
    destruct (inherited pk); [done|]. intros [= <-].
    unfold getBalance, nonce_of. cbn [accounts transactions].
    rewrite lookup_insert_eq. repeat split; try done.
    intros other Hne. by rewrite lookup_insert_ne.
Qed.

(** *** The log only grows *)

Lemma record_transaction_log now tx accs st h stored :
  transactions st !! hashTransaction tx = None →
  transactions st !! h = Some stored →
  transactions (record_transaction now tx (hashTransaction tx) accs st) !! h = Some stored.
Proof.
  intros Hfresh Hh. cbn [record_transaction transactions].
  rewrite lookup_insert_ne; [done|]. intros <-. congruence.
Qed.

Lemma ledger_step_log now c st h stored :
  transactions st !! h = Some stored →
  transactions (ledger_step now c st) !! h = Some stored.
Proof.
  intros Hh. destruct c as [pk b|tx|]; cbn [ledger_step].
  - unfold createAccount. destruct (accounts st !! pk); [done|]. by destruct (inherited pk).
  - destruct (applyTransaction_state now tx st)
      as [[-> _]|(sender & accs & Hchk & -> & _)]; [done|].
    apply record_transaction_log; [apply Hchk|done].
  - done.
Qed.

Lemma ledger_run_log calls st h stored :
  transactions st !! h = Some stored →
  transactions (ledger_run calls st) !! h = Some stored.
Proof.
  revert st. unfold ledger_run.
  induction calls as [|[now c] calls IH]; intros st Hh; [done|].
  cbn [fold_left fst snd]. by apply IH, ledger_step_log.
Qed.

(** X2.  Replay rejection.  Once a transaction has been accepted, applying
    it again - at any later time, after any further ledger calls, under any
    signature - fails as a duplicate and changes nothing. *)
Theorem accepted_transaction_cannot_be_replayed now tx st calls now' sig :
  success (fst (applyTransaction now tx st)) = true →
  applyTransaction now' (with_signature sig tx)
    (ledger_run calls (snd (applyTransaction now tx st)))
  = (failed "Transaction already exists (duplicate)",
     ledger_run calls (snd (applyTransaction now tx st))).
Proof.
  intros Hok.
  destruct (applyTransaction_accepted now tx st Hok) as (sender & accs & Hchk & -> & _).
  set (st1 := record_transaction _ _ _ _ _).
  assert (is_Some (transactions (ledger_run calls st1) !! hashTransaction tx)) as [stored Hs].
  { eexists. apply ledger_run_log. subst st1. cbn [record_transaction transactions].
    apply lookup_insert_eq. }
  unfold applyTransaction.
  change (hashTransaction (with_signature sig tx)) with (hashTransaction tx).
  by rewrite Hs.
Qed.

(** X3.  Insert and look up.  The digest of an accepted transaction was
    unknown to [getTransactionByHash] before the call and returns the
    transaction afterwards, also after any further ledger calls. *)
Theorem accepted_transaction_found_by_hash now tx st calls :
  success (fst (applyTransaction now tx st)) = true →
  getTransactionByHash (hashTransaction tx) st = None
  ∧ getTransactionByHash (hashTransaction tx)
      (ledger_run calls (snd (applyTransaction now tx st))) = Some tx.
Proof.
  intros Hok.
  destruct (applyTransaction_accepted now tx st Hok) as (sender & accs & Hchk & -> & _).
  unfold getTransactionByHash. split.
  - destruct Hchk as [-> _]. done.
  - erewrite ledger_run_log; [|cbn [record_transaction transactions]; apply lookup_insert_eq].
    done.
Qed.

End LedgerFurther.

(** The payment of 100 shells, replayed under another signature after a
    block and a new account. *)
Lemma accepted_transaction_cannot_be_replayed_witness :
  @applyTransaction ideal_crypto 9 (with_signature "forged" payment)
    (@ledger_run ideal_crypto [(8, IncrementBlockHeight); (8, CreateAccount "carol" 5)]
       (snd (@applyTransaction ideal_crypto 7 payment two_accounts)))
  = (failed "Transaction already exists (duplicate)",
     @ledger_run ideal_crypto [(8, IncrementBlockHeight); (8, CreateAccount "carol" 5)]
       (snd (@applyTransaction ideal_crypto 7 payment two_accounts))).
Proof.
  apply (@accepted_transaction_cannot_be_replayed ideal_crypto 7 payment two_accounts).
  vm_compute. reflexivity.
Defined.

Lemma accepted_transaction_found_by_hash_witness :
  getTransactionByHash payment_digest two_accounts = None
  ∧ getTransactionByHash payment_digest
      (@ledger_run ideal_crypto [(8, IncrementBlockHeight)]
         (snd (@applyTransaction ideal_crypto 7 payment two_accounts))) = Some payment.
Proof.
  apply (@accepted_transaction_found_by_hash ideal_crypto 7 payment two_accounts).
  vm_compute. reflexivity.
Defined.

Section LedgerInvariants.
Context `{Crypto}.

(** The accounts a call leaves: those before it, or those the transfer
    block builds on its way to a recipient account or to a built-in
    object. *)
Lemma applyTransaction_accounts now tx st :
  accounts (snd (applyTransaction now tx st)) = accounts st
  ∨ ∃ sender to,
      accounts st !! tx_from tx = Some sender
      ∧ tx_to tx = Some to
      ∧ (0 <= tx_amount tx)%Z
      ∧ (tx_amount tx + 1 <= balance sender)%Z
      ∧ ((is_Some (accounts st !! to)
          ∧ accounts (snd (applyTransaction now tx st)) =
              alter (set_updated_at now) to
                (alter (set_nonce_active (tx_nonce tx) now) (tx_from tx)
                   (alter (add_balance (tx_amount tx)) to
                      (alter (add_balance (- (tx_amount tx + 1))) (tx_from tx) (accounts st)))))
         ∨ (accounts st !! to = None ∧ inherited to = true
            ∧ accounts (snd (applyTransaction now tx st)) =
                alter (set_nonce_active (tx_nonce tx) now) (tx_from tx)
                  (alter (add_balance (- (tx_amount tx + 1))) (tx_from tx) (accounts st)))).
Proof.
  destruct (applyTransaction_state now tx st)
    as [[-> _]|(sender & accs & Hchk & -> & Haccs & _)]; [by left|].
  rewrite accounts_record_transaction.
  destruct (moves_value tx) eqn:Hmv; [|by left].
  apply moves_value_true in Hmv as [_ Hto]. apply truthy_Some in Hto as (to & Hto & _).
  destruct Hchk as (_ & Hs & _ & _ & Heco).
  assert (0 <= tx_amount tx)%Z as Hamount.
  { revert Heco. unfold validateEconomicConstraints. repeat case_decide; try done. lia. }
  destruct (transfer_block_accounts _ _ _ _ _ _ Hto Haccs) as (Hbal & Hforms).
  right. exists sender, to. repeat split; try done.
Qed.

(** X4.  A call to [applyTransaction] touches at most the accounts of
    [tx.from] and [tx.to]: it neither creates nor removes an account, leaves
    every other account exactly as it was, and never changes the block
    height. *)
Theorem applyTransaction_frame now tx st :
  dom (accounts (snd (applyTransaction now tx st))) = dom (accounts st)
  ∧ (∀ pk, pk ≠ tx_from tx → tx_to tx ≠ Some pk →
           accounts (snd (applyTransaction now tx st)) !! pk = accounts st !! pk)
  ∧ block_height (snd (applyTransaction now tx st)) = block_height st.
Proof.
  destruct (applyTransaction_state now tx st)
    as [[-> _]|(sender & accs & Hchk & Hst & Haccs & _)]; [done|].
  assert (block_height (snd (applyTransaction now tx st)) = block_height st) as Hheight
    by (by rewrite Hst).
  destruct (applyTransaction_accounts now tx st)
    as [->|(s & to & _ & Hto & _ & _ & [[_ ->]|(_ & _ & ->)])]; [done| |].
  - split; [|split; [|done]].
    + apply set_eq. intros pk. rewrite !elem_of_dom, !lookup_alter_is_Some. done.
    + intros pk Hfrom Hnto. rewrite Hto in Hnto.
      rewrite !lookup_alter_ne; [done|congruence..].
  - split; [|split; [|done]].
    + apply set_eq. intros pk. rewrite !elem_of_dom, !lookup_alter_is_Some. done.
    + intros pk Hfrom Hnto. by rewrite !lookup_alter_ne.
Qed.

(** One call keeps the balances non-negative. *)
Lemma applyTransaction_non_negative now tx st :
  map_Forall (λ _ account, 0 <= balance account)%Z (accounts st) →
  map_Forall (λ _ account, 0 <= balance account)%Z (accounts (snd (applyTransaction now tx st))).
Proof.
  intros Hst.
  destruct (applyTransaction_accounts now tx st)
    as [->|(sender & to & Hs & Hto & Hamount & Hbal & [[Hr ->]|(Hnone & _ & ->)])]; [done| |].
  - intros pk account.
    destruct (decide (pk = tx_from tx)) as [Hfrom|Hfrom].
    + subst pk. destruct (decide (to = tx_from tx)) as [Hself|Hother].
      * rewrite Hself, !lookup_alter_eq, Hs. intros [= <-]. simpl. lia.
      * rewrite lookup_alter_ne, lookup_alter_eq, lookup_alter_ne, lookup_alter_eq, Hs by done.
        intros [= <-]. simpl. lia.
    + destruct (decide (pk = to)) as [->|Hpk].
      * rewrite lookup_alter_eq, lookup_alter_ne, lookup_alter_eq, lookup_alter_ne by done.
        destruct (accounts st !! to) as [recipient|] eqn:Hrec; [|done].
        intros [= <-]. simpl. specialize (Hst _ _ Hrec). simpl in Hst. lia.
      * rewrite !lookup_alter_ne by done. apply Hst.
  - intros pk account.
    destruct (decide (pk = tx_from tx)) as [->|Hfrom].
    + rewrite !lookup_alter_eq, Hs. intros [= <-]. simpl. lia.
    + rewrite !lookup_alter_ne by done. apply Hst.
Qed.

(** X5.  Balances stay non-negative: if no account of the ledger has a
    negative balance, none has after any list of transactions is applied. *)
Theorem balances_stay_non_negative calls st :
  map_Forall (λ _ account, 0 <= balance account)%Z (accounts st) →
  map_Forall (λ _ account, 0 <= balance account)%Z (accounts (apply_all calls st)).
Proof.
  revert st. unfold apply_all.
  induction calls as [|[now tx] calls IH]; intros st Hst; [done|].
  cbn [fold_left fst snd]. apply IH. clear IH.
  by apply applyTransaction_non_negative.
Qed.

(** *** The supply *)

Lemma total_supply_non_negative accs :
  map_Forall (λ _ account, 0 <= balance account)%Z accs → (0 <= total_supply accs)%Z.
Proof.
  induction accs as [|k a accs Hk _ IH] using map_first_key_ind.
  - intros _. unfold total_supply. by rewrite map_fold_empty.
  - intros Hall. apply map_Forall_insert in Hall as [Ha Hall]; [|done].
    rewrite total_supply_insert_fresh by done. specialize (IH Hall). cbn in Ha. lia.
Qed.

Lemma balance_le_total_supply accs k a :
  map_Forall (λ _ account, 0 <= balance account)%Z accs →
  accs !! k = Some a → (balance a <= total_supply accs)%Z.
Proof.
  intros Hall Hk.
  rewrite <- (insert_delete_id accs k a Hk), total_supply_insert_fresh by apply lookup_delete_eq.
  assert (0 <= total_supply (delete k accs))%Z; [|lia].
  apply total_supply_non_negative. intros i b Hi.
  apply lookup_delete_Some in Hi as [_ Hi]. by apply (Hall i b).
Qed.

Lemma accepted_transfers_non_negative calls st : (0 <= accepted_transfers calls st)%Z.
Proof.
  revert st. induction calls as [|c calls IH]; intros st; [done|].
  cbn [accepted_transfers]. specialize (IH (snd (applyTransaction (fst c) (snd c) st))).
  destruct (_ && _); lia.
Qed.

(** What one call does to the supply when the recipient, if any, names no
    inherited property. *)
Lemma applyTransaction_supply now tx st :
  ordinary_recipient tx →
  total_supply (accounts (snd (applyTransaction now tx st)))
  = (total_supply (accounts st)
     - transaction_fee * accepted_transfers [(now, tx)] st)%Z.
Proof.
  intros Hord. cbn [accepted_transfers fst snd].
  destruct (applyTransaction_state now tx st)
    as [[-> ->]|(sender & accs & Hchk & -> & Haccs & ->)]; [cbn [andb]; lia|].
  rewrite accounts_record_transaction.
  assert (recipient_push_throws tx st = false) as ->.
  { unfold recipient_push_throws. destruct (tx_to tx) as [to|] eqn:Hto; [|done].
    rewrite (Hord to Hto). apply andb_false_r. }
  cbn [negb andb].
  destruct (moves_value tx) eqn:Hmv; [|subst accs; lia].
  pose proof Hmv as Hto. apply moves_value_true in Hto as [_ Hto].
  apply truthy_Some in Hto as (to & Hto & _).
  destruct Hchk as (_ & Hs & _).
  rewrite (transfer_block_supply now tx sender (accounts st) accs to Hto (Hord to Hto) Hs Haccs).
  lia.
Qed.

(** X6.  Nothing mints, in integer arithmetic.  Take a ledger whose
    balances are non-negative integers and whose supply is a safe integer,
    and a list of transactions with integer amounts whose recipients name no
    inherited property.  After the list the total supply is the supply
    before minus one fee per accepted transfer that names a recipient;
    accepted transactions of every other kind (mint and burn included) leave
    it where it was; and every balance is still a non-negative safe integer,
    so none of the additions of the code has rounded. *)
Theorem supply_only_burns_fees calls st :
  map_Forall (λ _ account, 0 <= balance account)%Z (accounts st) →
  (total_supply (accounts st) <= MAX_SAFE_INTEGER)%Z →
  Forall (λ c, ordinary_recipient (snd c)) calls →
  total_supply (accounts (apply_all calls st))
  = (total_supply (accounts st) - transaction_fee * accepted_transfers calls st)%Z
  ∧ map_Forall (λ _ account, 0 <= balance account <= MAX_SAFE_INTEGER)%Z
      (accounts (apply_all calls st)).
Proof.
  intros Hpos Hmax Hord.
  assert (total_supply (accounts (apply_all calls st))
          = (total_supply (accounts st) - transaction_fee * accepted_transfers calls st)%Z
          ∧ map_Forall (λ _ account, 0 <= balance account)%Z (accounts (apply_all calls st)))
    as [Hsupply Hpos'].
  { clear Hmax. revert st Hpos. unfold apply_all.
    induction Hord as [|[now tx] calls Htx _ IH]; intros st Hpos.
    - cbn. split; [lia|done].
    - cbn [fold_left fst snd] in *.
      destruct (IH _ (applyTransaction_non_negative now tx st Hpos)) as [-> Hpos'].
      split; [|done].
      rewrite (applyTransaction_supply now tx st Htx).
      cbn [accepted_transfers fst snd]. lia. }
  split; [done|].
  intros pk account Hpk. cbn. split; [by apply (Hpos' pk account)|].
  pose proof (balance_le_total_supply _ _ _ Hpos' Hpk) as Hle.
  pose proof (accepted_transfers_non_negative calls st). unfold transaction_fee in *. lia.
Qed.

End LedgerInvariants.

(** Alice pays Bob 100 and mints 10 twice: the supply falls from 1100 to
    1099. *)
Lemma supply_only_burns_fees_witness :
  total_supply (accounts (@apply_all ideal_crypto ((6, payment) :: two_mints) two_accounts))
  = (total_supply (accounts two_accounts)
     - transaction_fee * @accepted_transfers ideal_crypto ((6, payment) :: two_mints) two_accounts)%Z
  ∧ map_Forall (λ _ account, 0 <= balance account <= MAX_SAFE_INTEGER)%Z
      (accounts (@apply_all ideal_crypto ((6, payment) :: two_mints) two_accounts)).
Proof.
  apply (@supply_only_burns_fees ideal_crypto ((6, payment) :: two_mints) two_accounts).
  - refine (bool_decide_unpack _ _). vm_compute. exact I.
  - apply Z.leb_le. vm_compute. reflexivity.
  - repeat constructor; intros to Hto; vm_compute in Hto; simplify_eq; vm_compute; reflexivity.
Defined.

(** Alice pays Bob 100, mints 10 twice, and pays 5000 she does not have. *)
Lemma balances_stay_non_negative_witness :
  map_Forall (λ _ account, 0 <= balance account)%Z
    (accounts (@apply_all ideal_crypto
                 ((6, payment) :: two_mints ++ [(9, transfer_from_alice (Some bob) 5000 2)])
                 two_accounts)).
Proof.
  apply (@balances_stay_non_negative ideal_crypto).
  refine (bool_decide_unpack _ _). vm_compute. exact I.
Defined.

(** *** Transaction history *)

Lemma insert_newest_perm a l : insert_newest a l ≡ₚ a :: l.
Proof.
  induction l as [|b l IH]; [done|]. simpl. case_decide; [done|].
  rewrite IH. apply perm_swap.
Qed.

Lemma sort_newest_first_perm l : sort_newest_first l ≡ₚ l.
Proof.
  induction l as [|a l IH]; [done|]. simpl.
  by rewrite insert_newest_perm, IH.
Qed.

Lemma insert_newest_sorted a l :
  Sorted (λ x y, applied_at y <= applied_at x)%Z l →
  Sorted (λ x y, applied_at y <= applied_at x)%Z (insert_newest a l).
Proof.
  induction 1 as [|b l Hl IH Hhd]; simpl.
  - repeat constructor.
  - case_decide as Hab.
    + constructor; [by constructor|]. by constructor.
    + constructor; [done|].
      destruct l as [|c l]; simpl in *.
      * constructor. lia.
      * case_decide; constructor; [lia|]. by inversion Hhd.
Qed.

Lemma sort_newest_first_sorted l :
  Sorted (λ x y, applied_at y <= applied_at x)%Z (sort_newest_first l).
Proof.
  induction l as [|a l IH]; simpl; [constructor|]. by apply insert_newest_sorted.
Qed.

#[local] Instance newest_first_trans :
  Transitive (λ x y : StoredTransaction, applied_at y <= applied_at x)%Z.
Proof. intros x y z ??. lia. Qed.

Lemma length_slice_from_end {A} (n : Z) (l : list A) :
  (0 < n)%Z → (Z.of_nat (length (slice_from (- n) l)) <= n)%Z.
Proof.
  intros Hn. unfold slice_from. rewrite decide_True by lia.
  rewrite length_drop. lia.
Qed.

Lemma slice_from_whole {A} (n : Z) (l : list A) :
  (Z.of_nat (length l) <= n)%Z → slice_from (- n) l = l.
Proof.
  intros Hn. unfold slice_from.
  case_decide; [by rewrite Z.max_r by lia|].
  destruct l; [by rewrite drop_nil|]. simpl in Hn. lia.
Qed.

Lemma slice_from_keeps_last {A} (n : Z) (l : list A) (x : A) :
  (1 <= n)%Z → ∃ l', slice_from (- n) (l ++ [x]) = (l' ++ [x])%list.
Proof.
  intros Hn. unfold slice_from. rewrite decide_True by lia.
  exists (drop (Z.to_nat (Z.max (Z.of_nat (length (l ++ [x])) + - n) 0)) l).
  rewrite drop_app_le; [done|]. rewrite length_app. simpl.
  destruct (Z.max_spec (Z.of_nat (length l + 1) + - n) 0) as [[? ->]|[? ->]]; lia.
Qed.

Lemma length_omap_le {A B} (f : A → option B) (l : list A) :
  (length (omap f l) <= length l)%nat.
Proof.
  induction l as [|x l IH]; [done|].
  change (omap f (x :: l)) with (match f x with Some y => y :: omap f l | None => omap f l end).
  destruct (f x); simpl; lia.
Qed.

(** X7.  [getTransactionHistory] returns stored transactions of the
    account's index, newest first, and - for a positive limit - at most
    [limit] of them. *)
Theorem getTransactionHistory_newest_first limit pk st :
  StronglySorted (λ x y, applied_at y <= applied_at x)%Z (history_entries limit pk st)
  ∧ ((0 < limit)%Z → (Z.of_nat (length (getTransactionHistory limit pk st)) <= limit)%Z)
  ∧ ∀ entry, entry ∈ history_entries limit pk st →
      ∃ hash, hash ∈ default [] (account_transactions st !! pk)
              ∧ transactions st !! hash = Some entry.
Proof.
  split; [|split].
  - apply Sorted_StronglySorted; [apply _|]. apply sort_newest_first_sorted.
  - intros Hlimit. unfold getTransactionHistory, history_entries.
    rewrite length_map, sort_newest_first_perm.
    etrans; [|apply (length_slice_from_end limit (default [] (account_transactions st !! pk)) Hlimit)].
    apply inj_le, length_omap_le.
  - intros entry. unfold history_entries. rewrite sort_newest_first_perm.
    rewrite list_elem_of_omap. intros (hash & Hin & Hlookup).
    exists hash. split; [|done].
    unfold slice_from in Hin. by apply subseteq_drop in Hin.
Qed.

(** X8.  A limit of 0 does not mean "nothing": [slice(-0)] is [slice(0)],
    so [getTransactionHistory(pk, 0)] returns the whole history, as does any
    limit that is at least the length of the account's index. *)
Theorem getTransactionHistory_limit_zero limit pk st :
  (Z.of_nat (length (default [] (account_transactions st !! pk))) <= limit)%Z →
  getTransactionHistory 0 pk st = getTransactionHistory limit pk st.
Proof.
  intros Hlimit. unfold getTransactionHistory, history_entries.
  rewrite (slice_from_whole limit) by done.
  replace (slice_from (- 0) (default [] (account_transactions st !! pk)))
    with (default [] (account_transactions st !! pk)); [done|].
  unfold slice_from. cbn [Z.opp]. rewrite decide_False by lia.
  by rewrite Z.min_l by lia.
Qed.

Section History.
Context `{Crypto}.

Lemma record_transaction_index now tx accs st pk :
  recipient_push_throws tx st = false →
  pk = tx_from tx ∨ (tx_to tx = Some pk ∧ pk ≠ "") →
  ∃ old, account_transactions (record_transaction now tx (hashTransaction tx) accs st) !! pk
         = Some (old ++ [hashTransaction tx])%list.
Proof.
  intros Hthrows Hpk. cbn [record_transaction account_transactions].
  unfold recipient_push_throws in Hthrows.
  destruct (tx_to tx) as [to|] eqn:Hto.
  - cbn [truthy] in *. destruct (String.eqb_spec to "") as [->|Hne]; cbn [negb andb] in *.
    + destruct Hpk as [->|[[= <-] ?]]; [|done]. unfold push_index. rewrite lookup_insert_eq. eauto.
    + destruct (String.eqb_spec to (tx_from tx)) as [->|Hdiff]; cbn [negb andb] in *.
      * destruct Hpk as [->|[[= <-] ?]]; unfold push_index; rewrite lookup_insert_eq; eauto.
      * unfold push_recipient_index, push_index.
        rewrite lookup_insert_ne by done.
        destruct (account_transactions st !! to) as [hashes|] eqn:Hidx.
        -- destruct Hpk as [->|[[= <-] ?]].
           ++ rewrite lookup_insert_ne, lookup_insert_eq by done. eauto.
           ++ rewrite lookup_insert_eq. eauto.
        -- rewrite bool_decide_eq_true_2 in Hthrows by done. cbn [andb] in Hthrows.
           rewrite Hthrows.
           destruct Hpk as [->|[[= <-] ?]].
           ++ rewrite lookup_insert_ne, lookup_insert_eq by done. eauto.
           ++ rewrite lookup_insert_eq. by exists [].
  - destruct Hpk as [->|[[=] ?]]. unfold push_index. rewrite lookup_insert_eq. eauto.
Qed.

(** X9.  An accepted transaction shows up at once in the history of its
    sender and of the recipient it names, for every limit of at least 1. *)
Theorem accepted_transaction_in_history now tx st limit pk :
  success (fst (applyTransaction now tx st)) = true →
  (1 <= limit)%Z →
  pk = tx_from tx ∨ (tx_to tx = Some pk ∧ pk ≠ "") →
  tx ∈ getTransactionHistory limit pk (snd (applyTransaction now tx st)).
Proof.
  intros Hok Hlimit Hpk.
  pose proof (applyTransaction_accepted_no_throw now tx st Hok) as Hthrows.
  destruct (applyTransaction_accepted now tx st Hok) as (sender & accs & Hchk & -> & _).
  destruct (record_transaction_index now tx accs st pk Hthrows Hpk) as [old Hidx].
  unfold getTransactionHistory, history_entries. rewrite Hidx. cbn [from_option id].
  destruct (slice_from_keeps_last limit old (hashTransaction tx) Hlimit) as [l' ->].
  apply list_elem_of_In, in_map_iff.
  exists {| stored_tx := tx; stored_hash := hashTransaction tx;
            stored_block_height := block_height st; applied_at := now |}.
  split; [done|]. apply list_elem_of_In. rewrite sort_newest_first_perm.
  apply list_elem_of_omap. exists (hashTransaction tx). split; [apply elem_of_app; right; constructor|].
  cbn [record_transaction transactions]. apply lookup_insert_eq.
Qed.

(** X10.  What acceptance presupposes, for a transaction of any type, each
    check in the form the code tests it: the sender is an account of the
    ledger, the nonce is the sender's nonce plus one, the signature
    verifies, the amount is neither above the largest safe integer nor
    below zero, it is not zero in a transfer, and the sender's balance is
    not below the amount plus the fee - also when, as for a mint, nothing is
    then debited. *)
Theorem accepted_transaction_preconditions now tx st :
  success (fst (applyTransaction now tx st)) = true →
  ∃ sender,
    accounts st !! tx_from tx = Some sender
    ∧ tx_nonce tx = (nonce sender + 1)%Z
    ∧ verifyTransactionSignature tx = true
    ∧ ¬ (tx_amount tx > MAX_SAFE_INTEGER)%Z
    ∧ ¬ (tx_amount tx < 0)%Z
    ∧ ¬ (tx_amount tx = 0 ∧ tx_type tx = transfer)
    ∧ ¬ (balance sender < tx_amount tx + transaction_fee)%Z.
Proof.
  intros Hok.
  destruct (applyTransaction_accepted now tx st Hok)
    as (sender & accs & (_ & Hs & Hn & Hsig & Heco) & _).
  exists sender. split; [done|]. split; [done|]. split; [done|].
  revert Heco. unfold validateEconomicConstraints. by repeat case_decide.
Qed.

(** *** Stake *)

Lemma map_Forall_alter_preserved {A} (P : A → Prop) (f : A → A) k (m : gmap string A) :
  (∀ a, P a → P (f a)) →
  map_Forall (λ _ a, P a) m → map_Forall (λ _ a, P a) (alter f k m).
Proof.
  intros Hf Hm i a. rewrite lookup_alter. case_decide.
  - subst i. destruct (m !! k) as [b|] eqn:Hb; [|done]. intros [= <-]. eauto.
  - apply Hm.
Qed.

Lemma ledger_step_no_stake now c st :
  map_Forall (λ _ account, stake_locked account = 0) (accounts st) →
  map_Forall (λ _ account, stake_locked account = 0) (accounts (ledger_step now c st)).
Proof.
  intros Hst. destruct c as [pk b|tx|]; cbn [ledger_step].
  - unfold createAccount. destruct (accounts st !! pk); [done|].
    destruct (inherited pk); [done|].
    cbn [default accounts]. by apply map_Forall_insert_2.
  - destruct (applyTransaction_accounts now tx st)
      as [->|(sender & to & _ & _ & _ & _ & [[_ ->]|(_ & _ & ->)])]; [done|..];
      by repeat apply (map_Forall_alter_preserved (λ a, stake_locked a = 0)).
  - done.
Qed.

(** X11.  The ledger never locks a stake.  In every ledger built from the
    empty one by [createAccount], [applyTransaction] (of any type, [stake]
    included) and [incrementBlockHeight], every account has [stake_locked]
    0, so [isEligibleForUBI] is false for all of them at all times. *)
Theorem ledger_accounts_never_eligible_for_ubi calls pk account current_time :
  accounts (ledger_run calls empty_ledger) !! pk = Some account →
  stake_locked account = 0 ∧ isEligibleForUBI account current_time = false.
Proof.
  assert (∀ st, map_Forall (λ _ a, stake_locked a = 0) (accounts st) →
                map_Forall (λ _ a, stake_locked a = 0) (accounts (ledger_run calls st)))
    as Hrun.
  { unfold ledger_run. induction calls as [|[now c] calls IH]; intros st Hst; [done|].
    cbn [fold_left fst snd]. by apply IH, ledger_step_no_stake. }
  assert (map_Forall (λ _ a, stake_locked a = 0) (accounts (ledger_run calls empty_ledger)))
    as Hinv.
  { apply Hrun. cbn [accounts empty_ledger]. apply map_Forall_empty. }
  intros Hpk. specialize (Hinv pk account Hpk). cbn in Hinv. split; [done|].
  unfold isEligibleForUBI. rewrite Hinv. done.
Qed.

End History.

(** Alice's history after the payment, which holds one entry. *)
Lemma getTransactionHistory_limit_zero_witness :
  getTransactionHistory 0 alice (snd (@applyTransaction ideal_crypto 7 payment two_accounts))
  = getTransactionHistory 5 alice (snd (@applyTransaction ideal_crypto 7 payment two_accounts)).
Proof.
  apply (getTransactionHistory_limit_zero 5 alice
           (snd (@applyTransaction ideal_crypto 7 payment two_accounts))).
  apply Z.leb_le. vm_compute. reflexivity.
Defined.

(** The payment in Bob's history of length at most 1. *)
Lemma accepted_transaction_in_history_witness :
  payment ∈ getTransactionHistory 1 bob
              (snd (@applyTransaction ideal_crypto 7 payment two_accounts)).
Proof.
  apply (@accepted_transaction_in_history ideal_crypto 7 payment two_accounts 1 bob).
  - vm_compute. reflexivity.
  - lia.
  - right. split; [reflexivity|discriminate].
Defined.

Lemma accepted_transaction_preconditions_witness :
  ∃ sender,
    accounts two_accounts !! tx_from payment = Some sender
    ∧ tx_nonce payment = (nonce sender + 1)%Z
    ∧ @verifyTransactionSignature ideal_crypto payment = true
    ∧ ¬ (tx_amount payment > MAX_SAFE_INTEGER)%Z
    ∧ ¬ (tx_amount payment < 0)%Z
    ∧ ¬ (tx_amount payment = 0 ∧ tx_type payment = transfer)
    ∧ ¬ (balance sender < tx_amount payment + transaction_fee)%Z.
Proof.
  apply (@accepted_transaction_preconditions ideal_crypto 7 payment two_accounts).
  vm_compute. reflexivity.
Defined.

(** Alice's account after her creation and a [stake] transaction of 50. *)
Lemma ledger_accounts_never_eligible_for_ubi_witness :
  stake_locked alice_account = 0
  ∧ isEligibleForUBI alice_account 1700000000000 = false.
Proof.
  apply (@ledger_accounts_never_eligible_for_ubi ideal_crypto
           [(0, CreateAccount alice 1000); (5, ApplyTransaction stake_from_alice)]
           alice alice_account).
  vm_compute. reflexivity.
Defined.

(** ** Identity registry *)

(** X12.  For an identity key and an attester that name no inherited
    property, [registerBot] succeeds exactly when the identity is stored and
    the stake is not below the required one (25 with a non-empty attestation,
    50 otherwise); a call that fails leaves the registry as it was. *)
Theorem registerBot_succeeds_iff now pk stake attestation st :
  inherited pk = false →
  (∀ attester, attestation = Some attester → inherited attester = false) →
  (success (fst (registerBot now pk stake attestation st)) = true
   ↔ is_Some (bots st !! pk) ∧ ¬ (stake < required_stake attestation)%Z)
  ∧ (success (fst (registerBot now pk stake attestation st)) = false →
     snd (registerBot now pk stake attestation st) = st).
Proof.
  intros _ _. unfold registerBot, required_stake.
  destruct (bots st !! pk) as [identity|] eqn:Hpk.
  - case_decide as Hstake.
    + split; [|done]. split; [done|]. by intros [_ ?].
    + split.
      * split; [intros _; split; [eauto|done]|]. intros _.
        destruct attestation as [attester|]; [destruct (truthy (Some attester))|]; done.
      * destruct attestation as [attester|]; [destruct (truthy (Some attester))|]; done.
  - split; [|done]. split; [done|]. by intros [[? ?] _].
Qed.

(** A newcomer staking 25 on the word of an attester: the stake is not below
    the reduced requirement, so the call succeeds. *)
Lemma registerBot_succeeds_iff_witness :
  inherited "newcomer" = false
  ∧ inherited "attester" = false
  ∧ (success (fst (registerBot 1000 "newcomer" 25 (Some "attester") two_bots)) = true
     ↔ is_Some (bots two_bots !! "newcomer") ∧ ¬ (25 < required_stake (Some "attester"))%Z)
  ∧ (success (fst (registerBot 1000 "newcomer" 25 (Some "attester") two_bots)) = false →
     snd (registerBot 1000 "newcomer" 25 (Some "attester") two_bots) = two_bots).
Proof.
  split; [reflexivity|]. split; [reflexivity|].
  apply (registerBot_succeeds_iff 1000 "newcomer" 25 (Some "attester") two_bots).
  - reflexivity.
  - intros attester [= <-]. reflexivity.
Defined.

Lemma registerBot_stake now pk stake attestation st :
  success (fst (registerBot now pk stake attestation st)) = true →
  ∃ identity,
    bots (snd (registerBot now pk stake attestation st)) !! pk = Some identity
    ∧ staked_amount identity = stake
    ∧ stake_locked_until identity = (now + lock_period)%Z.
Proof.
  unfold registerBot. destruct (bots st !! pk) as [identity|] eqn:Hpk; [|done].
  case_decide; [done|]. intros _.
  destruct attestation as [attester|]; [destruct (truthy (Some attester))|];
    cbn [fst snd bots]; rewrite ?lookup_alter_eq, Hpk; cbn; eauto.
Qed.

(** X13.  The registration window.  After a successful [registerBot] with a
    stake of at least 50 the bot is registered during exactly the following
    thirty days: [isRegistered] is true at [now'] if and only if
    [now' < now + 2592000000]. *)
Theorem full_stake_registration_window now pk stake attestation st now' :
  success (fst (registerBot now pk stake attestation st)) = true →
  (registration <= stake)%Z →
  isRegistered now' pk (snd (registerBot now pk stake attestation st))
  = bool_decide (now' < now + 2592000000)%Z.
Proof.
  intros Hok Hstake.
  destruct (registerBot_stake now pk stake attestation st Hok) as (identity & Hb & Hs & Hl).
  unfold isRegistered. rewrite Hb, Hs, Hl. unfold lock_period, registration_lock_days.
  rewrite bool_decide_eq_true_2 by lia. cbn [andb].
  apply bool_decide_ext. lia.
Qed.

Lemma full_stake_registration_window_witness :
  isRegistered 2592000999 "newcomer" (snd (registerBot 1000 "newcomer" 50 None two_bots))
  = bool_decide (2592000999 < 1000 + 2592000000)%Z.
Proof.
  apply (full_stake_registration_window 1000 "newcomer" 50 None two_bots 2592000999).
  - vm_compute. reflexivity.
  - unfold registration. lia.
Defined.

(** X14.  Bookkeeping of an attestation.  A successful [registerBot] that
    names a non-empty attester appends the attester to the bot's
    attestations and the bot to the attester's list, without looking for
    an earlier entry; it leaves every other bot, every other list, and the
    reputation and keys of the bot itself as they were. *)
Theorem registerBot_records_attestation now pk stake attester st :
  attester ≠ "" →
  success (fst (registerBot now pk stake (Some attester) st)) = true →
  getAttestations pk (snd (registerBot now pk stake (Some attester) st))
  = (getAttestations pk st ++ [attester])%list
  ∧ storage_attestations (snd (registerBot now pk stake (Some attester) st)) !! attester
    = Some (default [] (storage_attestations st !! attester) ++ [pk])%list
  ∧ (∀ other, other ≠ pk →
       bots (snd (registerBot now pk stake (Some attester) st)) !! other = bots st !! other)
  ∧ (∀ other, other ≠ attester →
       storage_attestations (snd (registerBot now pk stake (Some attester) st)) !! other
       = storage_attestations st !! other)
  ∧ (bot_reputation <$> bots (snd (registerBot now pk stake (Some attester) st)) !! pk)
    = (bot_reputation <$> bots st !! pk)
  ∧ (bot_private_key <$> bots (snd (registerBot now pk stake (Some attester) st)) !! pk)
    = (bot_private_key <$> bots st !! pk).
Proof.
  intros Hne. unfold registerBot, getAttestations.
  destruct (bots st !! pk) as [identity|] eqn:Hpk; [|done].
  case_decide; [done|]. intros _.
  assert (truthy (Some attester) = true) as ->.
  { cbn. by destruct (String.eqb_spec attester ""). }
  cbn [fst snd bots storage_attestations].
  rewrite !lookup_alter_eq, Hpk, lookup_insert_eq. cbn.
  repeat split; try done.
  - intros other Hother. by rewrite !lookup_alter_ne.
  - intros other Hother. by rewrite lookup_insert_ne.
Qed.

(** The newcomer registered twice under the same attester. *)
Lemma registerBot_records_attestation_witness :
  getAttestations "newcomer"
    (snd (registerBot 2000 "newcomer" 25 (Some "attester")
            (snd (registerBot 1000 "newcomer" 25 (Some "attester") two_bots))))
  = ["attester"; "attester"].
Proof.
  refine (proj1 (registerBot_records_attestation 2000 "newcomer" 25 "attester"
                   (snd (registerBot 1000 "newcomer" 25 (Some "attester") two_bots)) _ _)).
  - discriminate.
  - vm_compute. reflexivity.
Defined.

(** ** Economic rules *)

(** X15.  Fees by priority.  For a non-negative base fee the three
    priorities are ordered, low being half the base fee rounded up; so a
    base fee of at least 1 never becomes free, and the default fee of 1 is
    not reduced at all. *)
Theorem calculateTransactionFee_ordered base_fee :
  (0 <= base_fee)%Z →
  (calculateTransactionFee base_fee low <= calculateTransactionFee base_fee normal
   <= calculateTransactionFee base_fee high)%Z
  ∧ (base_fee <= 2 * calculateTransactionFee base_fee low <= base_fee + 1)%Z
  ∧ (1 <= base_fee → 1 <= calculateTransactionFee base_fee low)%Z.
Proof.
  intros Hbase. unfold calculateTransactionFee.
  pose proof (Z.div_mod (base_fee + 1) 2 ltac:(lia)) as Hdiv.
  pose proof (Z.mod_pos_bound (base_fee + 1) 2 ltac:(lia)) as Hmod.
  lia.
Qed.

Lemma calculateTransactionFee_ordered_witness :
  (calculateTransactionFee transaction_fee low <= calculateTransactionFee transaction_fee normal
   <= calculateTransactionFee transaction_fee high)%Z
  ∧ (transaction_fee <= 2 * calculateTransactionFee transaction_fee low <= transaction_fee + 1)%Z
  ∧ (1 <= transaction_fee → 1 <= calculateTransactionFee transaction_fee low)%Z.
Proof.
  apply (calculateTransactionFee_ordered transaction_fee). unfold transaction_fee. lia.
Defined.

(** X16.  Skill economics.  For a skill of non-negative size the minting
    reward lies between 0 and 50, falls as the size grows, and is 0 exactly
    from 500000 bytes on; the net value is the reward minus a validation
    cost of at most 10, hence never below -10. *)
Theorem calculateSkillEconomics_bounds size size' complexity :
  (0 <= size <= size')%Z →
  (0 <= minting_reward (calculateSkillEconomics size complexity) <= skill_creation)%Z
  ∧ (minting_reward (calculateSkillEconomics size' complexity)
     <= minting_reward (calculateSkillEconomics size complexity))%Z
  ∧ (minting_reward (calculateSkillEconomics size complexity) = 0 ↔ 500000 <= size)%Z
  ∧ (1 <= validation_cost (calculateSkillEconomics size complexity) <= 10)%Z
  ∧ (-10 <= net_value (calculateSkillEconomics size complexity) < skill_creation)%Z.
Proof.
  intros Hsize. unfold calculateSkillEconomics, skill_creation.
  cbn [minting_reward validation_cost net_value].
  pose proof (Z.div_mod size 10000 ltac:(lia)) as Hdiv.
  pose proof (Z.mod_pos_bound size 10000 ltac:(lia)) as Hmod.
  pose proof (Z.div_le_mono size size' 10000 ltac:(lia) ltac:(lia)) as Hmono.
  destruct complexity; lia.
Qed.

Lemma calculateSkillEconomics_bounds_witness :
  (0 <= minting_reward (calculateSkillEconomics 499999 complexity_high) <= skill_creation)%Z
  ∧ (minting_reward (calculateSkillEconomics 500000 complexity_high)
     <= minting_reward (calculateSkillEconomics 499999 complexity_high))%Z
  ∧ (minting_reward (calculateSkillEconomics 499999 complexity_high) = 0 ↔ 500000 <= 499999)%Z
  ∧ (1 <= validation_cost (calculateSkillEconomics 499999 complexity_high) <= 10)%Z
  ∧ (-10 <= net_value (calculateSkillEconomics 499999 complexity_high) < skill_creation)%Z.
Proof.
  apply (calculateSkillEconomics_bounds 499999 500000 complexity_high). lia.
Defined.

(** ** PBFT validator: what every run preserves *)

Section Preservation.
Context `{Crypto}.

(** A property of the validator that survives each elementary update the
    handlers make survives every handler. *)
Variable P : Validator → Prop.
Hypothesis P_pending : ∀ p v, P v → P (set_pending p v).
Hypothesis P_log : ∀ m v, P v → P (log_message m v).
Hypothesis P_sequence : ∀ n v, P v → P (set_state (set_sequence n (state v)) v).
Hypothesis P_prepared : ∀ m v,
  P v → verifyMessage (config v) m = true →
  P (set_state (set_prepared (add_vote (msg_digest m) (msg_validator m) (prepared (state v)))
                  (state v)) v).
Hypothesis P_committed : ∀ m v,
  P v → verifyMessage (config v) m = true →
  P (set_state (set_committed (add_vote (msg_digest m) (msg_validator m) (committed (state v)))
                  (state v)) v).
Hypothesis P_commit : ∀ now digest tx v, P v → P (commitTransaction now digest tx v).

Lemma handleCommit_preserves now m v : P v → P (handleCommit now m v).
Proof.
  intros HP. unfold handleCommit.
  destruct (negb (bool_decide (msg_type m = commit))); [done|].
  destruct (verifyMessage (config v) m) eqn:Hver; [|done]. cbn [negb].
  destruct (negb (bool_decide (msg_view m = view (state v)))); [done|].
  cbv zeta. set (v1 := set_state _ v).
  assert (P v1) as HP1 by (by apply P_committed).
  destruct (decide _); [|done].
  destruct (pending v1 !! msg_digest m) as [p|]; [|done].
  destruct (tx_committed p); [done|].
  by apply P_commit, P_pending.
Qed.

Lemma broadcastCommit_preserves now digest v : P v → P (broadcastCommit now digest v).
Proof. intros HP. unfold broadcastCommit. by apply handleCommit_preserves, P_log. Qed.

Lemma handlePrepare_preserves now m v : P v → P (handlePrepare now m v).
Proof.
  intros HP. unfold handlePrepare.
  destruct (negb (bool_decide (msg_type m = prepare))); [done|].
  destruct (verifyMessage (config v) m) eqn:Hver; [|done]. cbn [negb].
  destruct (negb (bool_decide (msg_view m = view (state v)))); [done|].
  cbv zeta. set (v1 := set_state _ v).
  assert (P v1) as HP1 by (by apply P_prepared).
  destruct (decide _); [|done].
  destruct (pending v1 !! msg_digest m) as [p|]; [|done].
  destruct (tx_prepared p); [done|].
  by apply broadcastCommit_preserves, P_pending.
Qed.

Lemma broadcastPrepare_preserves now digest v : P v → P (broadcastPrepare now digest v).
Proof. intros HP. unfold broadcastPrepare. by apply handlePrepare_preserves, P_log. Qed.

Lemma handlePrePrepare_preserves now m v : P v → P (handlePrePrepare now m v).
Proof.
  intros HP. unfold handlePrePrepare.
  destruct (negb (bool_decide (msg_type m = pre_prepare))); [done|].
  destruct (negb (verifyMessage (config v) m)); [done|].
  destruct (negb (bool_decide (msg_view m = view (state v)))); [done|].
  destruct (negb (String.eqb (msg_validator m) (leader_id (state v)))); [done|].
  destruct (pending v !! msg_digest m) as [p|]; [|done].
  by apply broadcastPrepare_preserves, P_pending.
Qed.

Lemma broadcastPrePrepare_preserves now digest v : P v → P (broadcastPrePrepare now digest v).
Proof.
  intros HP. unfold broadcastPrePrepare. cbv zeta.
  by apply handlePrePrepare_preserves, P_log, P_sequence.
Qed.

Lemma submitTransaction_preserves now tx v : P v → P (snd (submitTransaction now tx v)).
Proof.
  intros HP. unfold submitTransaction.
  destruct (pending v !! hashTransaction tx); [done|].
  destruct (validateTransaction tx v); [done|].
  cbv zeta. cbn [snd].
  destruct (is_leader _); [apply broadcastPrePrepare_preserves|]; by apply P_pending.
Qed.

Lemma step_preserves now c v : P v → P (step now c v).
Proof.
  intros HP. destruct c; cbn [step].
  - by apply submitTransaction_preserves.
  - by apply handlePrePrepare_preserves.
  - by apply handlePrepare_preserves.
  - by apply handleCommit_preserves.
Qed.

Lemma run_preserves calls v : P v → P (run calls v).
Proof.
  revert v. unfold run. induction calls as [|[now c] calls IH]; intros v HP; [done|].
  cbn [fold_left]. by apply IH, step_preserves.
Qed.

End Preservation.

Section ConsensusFurther.
Context `{Crypto}.

(** *** No view change *)

Lemma commitTransaction_static cfg now digest tx v :
  static cfg v → static cfg (commitTransaction now digest tx v).
Proof.
  unfold commitTransaction.
  by destruct (applyTransaction now tx (ledger v)) as [[[] ?] ?].
Qed.

Lemma run_static cfg calls l : static cfg (run calls (new_validator cfg l)).
Proof.
  apply run_preserves; try done.
  - apply commitTransaction_static.
  - unfold static. cbn. rewrite electLeader_initial, String.eqb_refl. done.
Qed.

(** X17.  No view change and no follower.  In every state a validator
    reaches from its constructor, under any calls and with any keys, the
    view is 0 and the validator takes itself for the leader; so it drops
    every PRE-PREPARE that names another validator. *)
Theorem validator_stays_its_own_leader cfg l calls :
  config (run calls (new_validator cfg l)) = cfg
  ∧ view (state (run calls (new_validator cfg l))) = 0
  ∧ is_leader (state (run calls (new_validator cfg l))) = true
  ∧ leader_id (state (run calls (new_validator cfg l))) = validator_id cfg
  ∧ ∀ now m, msg_validator m ≠ validator_id cfg →
      handlePrePrepare now m (run calls (new_validator cfg l)) = run calls (new_validator cfg l).
Proof.
  destruct (run_static cfg calls l) as (Hc & Hv & Hl & Hid).
  repeat split; try done.
  intros now m Hm. unfold handlePrePrepare. rewrite Hid.
  apply String.eqb_neq in Hm. rewrite Hm. cbn [negb].
  by repeat case_match.
Qed.

(** *** Votes *)

Lemma verifyMessage_known cfg m :
  verifyMessage cfg m = true → msg_validator m ∈ known_validators cfg.
Proof.
  unfold verifyMessage, known_validators.
  destruct (String.eqb_spec (msg_validator m) (validator_id cfg)) as [->|Hne].
  - intros _. apply list_elem_of_here.
  - destruct (find _ (peers cfg)) as [p|] eqn:Hfind; [|done]. intros _.
    apply find_some in Hfind as [Hin Heq]. apply String.eqb_eq in Heq.
    apply list_elem_of_further, list_elem_of_In, in_map_iff. eauto.
Qed.

Lemma add_vote_elem digest validator votes d voter :
  voter ∈ default ∅ (add_vote digest validator votes !! d) →
  voter ∈ default (∅ : gset string) (votes !! d) ∨ voter = validator.
Proof.
  unfold add_vote. rewrite lookup_insert. case_decide as Hd; [|by left].
  subst d. cbn. rewrite elem_of_union, elem_of_singleton. done.
Qed.

Lemma delete_votes_elem digest (votes : gmap string (gset string)) d voter :
  voter ∈ default ∅ (delete digest votes !! d) → voter ∈ default ∅ (votes !! d).
Proof.
  rewrite lookup_delete. case_decide; [|done]. cbn. intros Hin. by apply elem_of_empty in Hin.
Qed.

(** X18.  Votes come from configured validators only.  In every reachable
    state each validator recorded in a PREPARE or COMMIT set is the
    validator itself or one of its configured peers. *)
Theorem votes_come_from_configured_validators cfg l calls digest voter :
  voter ∈ prepare_votes digest (run calls (new_validator cfg l))
          ∪ commit_votes digest (run calls (new_validator cfg l)) →
  voter ∈ known_validators cfg.
Proof.
  assert (votes_known cfg (run calls (new_validator cfg l))) as [_ Hknown]; [|apply Hknown].
  (* each elementary update keeps the votes among the known validators *)
  apply run_preserves; try done.
  - intros m v [Hc Hv] Hver. split; [done|].
    intros d w. unfold prepare_votes, commit_votes. cbn [state set_state set_prepared
      prepared committed].
    rewrite elem_of_union. intros [Hin|Hin].
    + apply add_vote_elem in Hin as [Hin| ->].
      * apply (Hv d). apply elem_of_union. by left.
      * apply verifyMessage_known. by rewrite <- Hc.
    + apply (Hv d). apply elem_of_union. by right.
  - intros m v [Hc Hv] Hver. split; [done|].
    intros d w. unfold prepare_votes, commit_votes. cbn [state set_state set_committed
      prepared committed].
    rewrite elem_of_union. intros [Hin|Hin].
    + apply (Hv d). apply elem_of_union. by left.
    + apply add_vote_elem in Hin as [Hin| ->].
      * apply (Hv d). apply elem_of_union. by right.
      * apply verifyMessage_known. by rewrite <- Hc.
  - intros now d0 tx v [Hc Hv]. unfold commitTransaction.
    destruct (applyTransaction now tx (ledger v)) as [[[] ?] ?]; cbn [success]; [|done].
    split; [done|]. intros d w.
    unfold prepare_votes, commit_votes. cbn [state set_committed set_prepared prepared committed].
    rewrite elem_of_union. intros [Hin|Hin]; apply delete_votes_elem in Hin;
      apply (Hv d), elem_of_union; [by left|by right].
Qed.

(** *** Committed transactions *)

Lemma commitTransaction_notified_applied now digest tx v :
  notified_applied v → notified_applied (commitTransaction now digest tx v).
Proof.
  intros [Hdup Hlog]. unfold commitTransaction.
  destruct (applyTransaction now tx (ledger v)) as [r st'] eqn:Happ.
  destruct (success r) eqn:Hok.
  - assert (success (fst (applyTransaction now tx (ledger v))) = true) as Hok'
      by (by rewrite Happ).
    destruct (applyTransaction_accepted now tx (ledger v) Hok')
      as (sender & accs & (Hfresh & _) & Hst & _).
    rewrite Happ in Hst. cbn [snd] in Hst. subst st'.
    assert (∀ tx', tx' ∈ notified v → hashTransaction tx' ≠ hashTransaction tx) as Hne.
    { intros tx' Hin Heq. specialize (Hlog tx' Hin). unfold getTransactionByHash in Hlog.
      rewrite Heq, Hfresh in Hlog. done. }
    split; cbn [notified ledger].
    + rewrite map_app. apply NoDup_app. split; [done|]. split; [|apply NoDup_singleton].
      intros h Hh Hh'. apply list_elem_of_singleton in Hh'. subst h.
      apply list_elem_of_In, in_map_iff in Hh as (tx' & Heq & Hin).
      by apply (Hne tx'); [apply list_elem_of_In|].
    + intros tx' Hin. unfold getTransactionByHash.
      cbn [record_transaction transactions].
      apply elem_of_app in Hin as [Hin|Hin].
      * rewrite lookup_insert_ne by (intros Heq; by apply (Hne tx')). by apply Hlog.
      * apply list_elem_of_singleton in Hin. subst tx'. by rewrite lookup_insert_eq.
  - assert (success (fst (applyTransaction now tx (ledger v))) = false) as Hok'
      by (by rewrite Happ).
    clear Hok'. split; [done|]. intros tx' Hin. cbn [notified ledger] in *.
    specialize (Hlog tx' Hin). unfold getTransactionByHash in *.
    apply fmap_Some in Hlog as (stored & Hstored & ->).
    pose proof (ledger_step_log now (ApplyTransaction tx) (ledger v) _ _ Hstored) as Hkept.
    cbn [ledger_step] in Hkept. rewrite Happ in Hkept. cbn [snd] in Hkept.
    by rewrite Hkept.
Qed.

(** X19.  Committed once, and in the ledger.  The commit callbacks are
    invoked at most once per transaction hash, and each transaction they
    were invoked with is stored in the validator's ledger under its hash. *)
Theorem committed_transactions_are_in_the_ledger cfg l calls :
  NoDup (map hashTransaction (notified (run calls (new_validator cfg l))))
  ∧ ∀ tx, tx ∈ notified (run calls (new_validator cfg l)) →
      getTransactionByHash (hashTransaction tx) (ledger (run calls (new_validator cfg l)))
      = Some tx.
Proof.
  change (notified_applied (run calls (new_validator cfg l))).
  apply run_preserves; try done.
  - apply commitTransaction_notified_applied.
  - split; [constructor|]. cbn. intros tx Hin. by apply elem_of_nil in Hin.
Qed.

End ConsensusFurther.

Lemma votes_come_from_configured_validators_witness :
  "validator-2" ∈ known_validators four_validators.
Proof.
  apply (@votes_come_from_configured_validators ideal_crypto four_validators two_accounts
           [(10, Submit payment); (11, DeliverPrepare peer_prepare)] payment_digest).
  refine (bool_decide_unpack _ _). vm_compute. exact I.
Defined.

Section ConsensusRuns.
Context `{Crypto}.

(** *** The sequence number *)

Lemma commitTransaction_sequence now digest tx v :
  sequence (state (commitTransaction now digest tx v)) = sequence (state v).
Proof.
  unfold commitTransaction.
  by destruct (applyTransaction now tx (ledger v)) as [[[] ?] ?].
Qed.

Lemma submitTransaction_sequence now tx v :
  is_leader (state v) = true →
  sequence (state (snd (submitTransaction now tx v)))
  = sequence (state v) + validated_submissions [(now, Submit tx)] v.
Proof.
  intros Hl. unfold submitTransaction. cbn [validated_submissions fst snd].
  destruct (pending v !! hashTransaction tx); [cbn; lia|].
  destruct (validateTransaction tx v); [cbn; lia|].
  cbv zeta. cbn [fst snd success ok state set_pending]. rewrite Hl.
  unfold broadcastPrePrepare. cbv zeta.
  assert (sequence (state v) + (1 + 0) = sequence (state v) + 1) as -> by lia.
  apply (handlePrePrepare_preserves (λ v', sequence (state v') = sequence (state v) + 1));
    try done.
  intros ? ? ? ? <-. apply commitTransaction_sequence.
Qed.
Lemma step_sequence cfg now c v :
  static cfg v →
  sequence (state (step now c v))
  = sequence (state v) + validated_submissions [(now, c)] v.
Proof.
  intros (_ & _ & Hl & _).
  destruct c as [tx|m|m|m]; cbn [step].
  - by apply submitTransaction_sequence.
  - cbn [validated_submissions fst snd].
    assert (sequence (state (handlePrePrepare now m v)) = sequence (state v)) as ->; [|lia].
    apply (handlePrePrepare_preserves (λ v', sequence (state v') = sequence (state v)));
      try done.
    intros ? ? ? ? <-. apply commitTransaction_sequence.
  - cbn [validated_submissions fst snd].
    assert (sequence (state (handlePrepare now m v)) = sequence (state v)) as ->; [|lia].
    apply (handlePrepare_preserves (λ v', sequence (state v') = sequence (state v)));
      try done.
    intros ? ? ? ? <-. apply commitTransaction_sequence.
  - cbn [validated_submissions fst snd].
    assert (sequence (state (handleCommit now m v)) = sequence (state v)) as ->; [|lia].
    apply (handleCommit_preserves (λ v', sequence (state v') = sequence (state v)));
      try done.
    intros ? ? ? ? <-. apply commitTransaction_sequence.
Qed.
Lemma run_sequence cfg calls v :
  static cfg v →
  sequence (state (run calls v)) = sequence (state v) + validated_submissions calls v.
Proof.
  revert v. unfold run. induction calls as [|[now c] calls IH]; intros v Hst.
  - cbn. lia.
  - cbn [fold_left]. rewrite IH.
    2:{ apply step_preserves; try done. apply commitTransaction_static. }
    rewrite (step_sequence cfg) by done.
    cbn [validated_submissions fst snd]. lia.
Qed.
(** X20.  The sequence number counts the submissions that reached
    [broadcastPrePrepare]: in every state reached from a new validator it is
    the number of [submitTransaction] calls so far that found their
    transaction not pending and valid, whether or not the call went on to
    return; a rejected submission and a delivered message never change it. *)
Theorem sequence_counts_validated_submissions cfg l calls :
  sequence (state (run calls (new_validator cfg l)))
  = validated_submissions calls (new_validator cfg l).
Proof.
  rewrite (run_sequence cfg).
  - cbn. lia.
  - unfold static. cbn. rewrite electLeader_initial, String.eqb_refl. done.
Qed.

(** *** A network of one validator *)

Lemma quorum_single cfg : peers cfg = [] → quorum cfg = 1.
Proof. unfold quorum, fault_bound, all_validators_count. by intros ->. Qed.

Lemma commitTransaction_effect now digest tx v :
  ledger (commitTransaction now digest tx v) = snd (applyTransaction now tx (ledger v))
  ∧ (if success (fst (applyTransaction now tx (ledger v)))
     then pending (commitTransaction now digest tx v) = delete digest (pending v)
          ∧ notified (commitTransaction now digest tx v) = (notified v ++ [tx])%list
     else pending (commitTransaction now digest tx v) = pending v
          ∧ notified (commitTransaction now digest tx v) = notified v).
Proof.
  unfold commitTransaction.
  by destruct (applyTransaction now tx (ledger v)) as [[[] ?] ?].
Qed.

Lemma broadcastCommit_single now digest v p :
  own_keys_match (config v) → peers (config v) = [] →
  pending v !! digest = Some p → tx_committed p = false →
  ∃ v1, broadcastCommit now digest v = commitTransaction now digest (pending_tx p) v1
        ∧ ledger v1 = ledger v ∧ notified v1 = notified v
        ∧ pending v1 = <[digest := mark_committed p]> (pending v).
Proof.
  intros Hkeys Hpeers Hp Hc. unfold broadcastCommit.
  set (m := sign_consensus_message _ _).
  rewrite (handleCommit_threshold now m (log_message m v) p); try done.
  - cbv zeta. rewrite decide_True.
    + eexists. split; [reflexivity|]. done.
    + cbn [config log_message]. rewrite quorum_single by done. lia.
  - by apply verifyMessage_own.
Qed.

Lemma broadcastPrepare_single now digest v p :
  own_keys_match (config v) → peers (config v) = [] →
  pending v !! digest = Some p → tx_prepared p = false →
  ∃ v1, broadcastPrepare now digest v = broadcastCommit now digest v1
        ∧ config v1 = config v ∧ ledger v1 = ledger v ∧ notified v1 = notified v
        ∧ pending v1 = <[digest := mark_prepared p]> (pending v).
Proof.
  intros Hkeys Hpeers Hp Hc. unfold broadcastPrepare.
  set (m := sign_consensus_message _ _).
  rewrite (handlePrepare_threshold now m (log_message m v) p); try done.
  - cbv zeta. rewrite decide_True.
    + eexists. split; [reflexivity|]. done.
    + cbn [config log_message]. rewrite quorum_single by done. lia.
  - by apply verifyMessage_own.
Qed.

(** X21.  One validator commits at once.  On a validator without peers
    whose own signatures verify, a submission that [submitTransaction]
    accepts runs through all three phases within the call: the ledger is
    asked to apply the transaction straight away.  If the ledger accepts
    it, the commit callbacks see it and the pending set is as before; if
    the ledger rejects it - [submitTransaction] checks signature, sender and
    nonce only - the call still reports success, the entry stays pending with
    all three flags set, and every later submission of the transaction
    fails as already pending. *)
Theorem single_validator_commits_at_once now tx v :
  own_keys_match (config v) → peers (config v) = [] →
  is_leader (state v) = true → leader_id (state v) = validator_id (config v) →
  success (fst (submitTransaction now tx v)) = true →
  ledger (snd (submitTransaction now tx v)) = snd (applyTransaction now tx (ledger v))
  ∧ (if success (fst (applyTransaction now tx (ledger v)))
     then pending (snd (submitTransaction now tx v)) = pending v
          ∧ notified (snd (submitTransaction now tx v)) = (notified v ++ [tx])%list
     else pending (snd (submitTransaction now tx v))
            = <[hashTransaction tx := stuck_entry tx now]> (pending v)
          ∧ notified (snd (submitTransaction now tx v)) = notified v
          ∧ ∀ now', fst (submitTransaction now' tx (snd (submitTransaction now tx v)))
                    = failed "Transaction already pending").
Proof.
  intros Hkeys Hpeers Hl Hid Hok.
  set (entry := {| pending_tx := tx; received_at := now; pre_prepared := false;
                   tx_prepared := false; tx_committed := false |}).
  assert (pending v !! hashTransaction tx = None
          ∧ submitTransaction now tx v
            = (ok, broadcastPrePrepare now (hashTransaction tx)
                     (set_pending (<[hashTransaction tx := entry]> (pending v)) v)))
    as [Hfresh Hsub].
  { revert Hok. unfold submitTransaction.
    destruct (pending v !! hashTransaction tx); [done|].
    destruct (validateTransaction tx v); [done|].
    cbv zeta. cbn [state set_pending]. by rewrite Hl. }
  assert (∀ now', ∀ v' : Validator,
            pending v' = <[hashTransaction tx := stuck_entry tx now]> (pending v) →
            fst (submitTransaction now' tx v') = failed "Transaction already pending")
    as Hstuck.
  { intros now' v' Hv'. unfold submitTransaction. by rewrite Hv', lookup_insert_eq. }
  rewrite Hsub. cbn [fst snd]. clear Hsub Hok.
  unfold broadcastPrePrepare. cbv zeta.
  set (m0 := sign_consensus_message _ _).
  set (v2 := log_message m0 _).
  assert (handlePrePrepare now m0 v2
          = broadcastPrepare now (hashTransaction tx)
              (set_pending (<[hashTransaction tx := mark_pre_prepared entry]> (pending v2)) v2))
    as ->.
  { apply (handlePrePrepare_own now v2 (hashTransaction tx) (sequence (state v)) entry);
      [done|done|apply lookup_insert_eq]. }
  destruct (broadcastPrepare_single now (hashTransaction tx)
              (set_pending (<[hashTransaction tx := mark_pre_prepared entry]> (pending v2)) v2)
              (mark_pre_prepared entry))
    as (v3 & -> & Hc3 & Hl3 & Hn3 & Hp3); [done|done|apply lookup_insert_eq|done|].
  destruct (broadcastCommit_single now (hashTransaction tx) v3
              (mark_prepared (mark_pre_prepared entry)))
    as (v4 & -> & Hl4 & Hn4 & Hp4);
    [by rewrite Hc3|by rewrite Hc3|by rewrite Hp3, lookup_insert_eq|done|].
  destruct (commitTransaction_effect now (hashTransaction tx) tx v4) as [Hledger Heffect].
  cbn [pending_tx mark_prepared mark_pre_prepared entry].
  rewrite Hl4, Hl3 in Hledger, Heffect. cbn [ledger v2 log_message set_pending set_state]
    in Hledger, Heffect.
  split; [done|].
  assert (pending v4 = <[hashTransaction tx := stuck_entry tx now]> (pending v)) as Hp.
  { rewrite Hp4, Hp3. cbn [pending set_pending v2 log_message set_state].
    by rewrite !insert_insert_eq. }
  rewrite Hn4, Hn3 in Heffect. cbn [notified v2 log_message set_pending set_state] in Heffect.
  destruct (success (fst (applyTransaction now tx (ledger v)))).
  - destruct Heffect as [-> ->]. split; [|done].
    rewrite Hp, delete_insert_eq. by apply delete_id.
  - destruct Heffect as [Hpend ->]. rewrite Hpend. split; [done|]. split; [done|].
    intros now'. apply Hstuck. by rewrite Hpend.
Qed.

(** *** Leader election *)

(** X22.  [electLeader] is a round robin over the validator itself followed
    by its peers in configuration order: for a view that is not negative it
    picks the entry at index [view mod n] of that list, [n] its length, so
    it repeats every [n] views. *)
Theorem electLeader_round_robin cfg v :
  (0 <= v)%Z →
  known_validators cfg !! Z.to_nat (v mod Z.of_nat (length (known_validators cfg)))
  = Some (electLeader cfg v)
  ∧ electLeader cfg v ∈ known_validators cfg
  ∧ electLeader cfg (v + Z.of_nat (length (known_validators cfg))) = electLeader cfg v.
Proof.
  intros Hv.
  assert (known_validators cfg !! Z.to_nat (v mod Z.of_nat (length (known_validators cfg)))
          = Some (electLeader cfg v)) as Hlookup.
  { unfold electLeader, known_validators.
    destruct (peers cfg) as [|p ps] eqn:Hpeers.
    - cbn. by rewrite Z.mod_1_r.
    - set (all := validator_id cfg :: map peer_id (p :: ps)).
      destruct (lookup_lt_is_Some_2 all (Z.to_nat (v mod Z.of_nat (length all)))) as [x Hx].
      + pose proof (Z.mod_pos_bound v (Z.of_nat (length all))) as Hb.
        assert (0 < Z.of_nat (length all))%Z by (subst all; cbn [length]; lia). lia.
      + by rewrite Hx. }
  split; [done|]. split; [by apply list_elem_of_lookup_2 in Hlookup|].
  unfold electLeader. destruct (peers cfg) as [|p ps] eqn:Hpeers; [done|].
  unfold known_validators. rewrite Hpeers.
  set (n := Z.of_nat (length _)).
  replace (v + n)%Z with (v + 1 * n)%Z by lia.
  by rewrite Z_mod_plus_full.
Qed.

End ConsensusRuns.

(** The payment submitted to a validator without peers. *)
Lemma single_validator_commits_at_once_witness :
  ledger (snd (@submitTransaction ideal_crypto 10 payment
                 (new_validator single_validator two_accounts)))
  = snd (@applyTransaction ideal_crypto 10 payment two_accounts)
  ∧ getBalance bob
      (ledger (snd (@submitTransaction ideal_crypto 10 payment
                      (new_validator single_validator two_accounts)))) = 200.
Proof.
  split; [|vm_compute; reflexivity].
  refine (proj1 (@single_validator_commits_at_once ideal_crypto 10 payment
                   (new_validator single_validator two_accounts) _ _ _ _ _)).
  - split; [discriminate|]. intros message. apply String.eqb_refl.
  - reflexivity.
  - reflexivity.
  - reflexivity.
  - vm_compute. reflexivity.
Defined.

(** View 5 among four validators: index 1, the first peer. *)
Lemma electLeader_round_robin_witness :
  known_validators four_validators
    !! Z.to_nat (5 mod Z.of_nat (length (known_validators four_validators)))
  = Some (electLeader four_validators 5)
  ∧ electLeader four_validators 5 ∈ known_validators four_validators
  ∧ electLeader four_validators (5 + Z.of_nat (length (known_validators four_validators)))
    = electLeader four_validators 5.
Proof.
  apply (electLeader_round_robin four_validators 5). lia.
Defined.

(** ** Skill marketplace *)

Section Market.
Context `{Crypto} `{Floats}.

Lemma verifySkill_lookup id mk mk' :
  skills (storage mk') !! id = skills (storage mk) !! id →
  verifySkill id mk' = verifySkill id mk.
Proof. unfold verifySkill. by intros ->. Qed.

Lemma hashed_files_verify (fs : list (string * string)) :
  find (λ f, negb (String.eqb (hashData (HString (file_content f))) (file_hash f)))
    (map (λ f, {| file_path := fst f; file_content := snd f;
                  file_hash := hashData (HString (snd f)) |}) fs) = None.
Proof.
  induction fs as [|f fs IH]; [done|]. cbn [map find file_content file_hash].
  by rewrite String.eqb_refl.
Qed.

(** *** What each call does to the storage *)

Lemma createSkill_consistent now name description version type fs creator deps lic entry mk :
  storage_consistent mk →
  storage_consistent
    (snd (createSkill now name description version type fs creator deps lic entry mk)).
Proof.
  intros (Hskills & Hlistings & Hreviews). unfold createSkill. cbv zeta.
  set (fileHashes := map _ fs).
  set (h := hashData (HObject (manifest name description version type fileHashes deps lic entry))).
  destruct (skills (storage mk) !! h) eqn:Hfresh; [done|].
  cbn [snd]. split; [|split].
  - intros id skill. cbn [storage skills]. rewrite lookup_insert. case_decide as Hid.
    + subst id. intros [= <-]. cbn [skill_id manifest_hash]. split; [done|]. split; [done|].
      unfold verifySkill. cbn [storage skills]. rewrite lookup_insert_eq.
      cbn [skill_name skill_description skill_version skill_type files dependencies license
             entry_point manifest_hash].
      fold h. rewrite String.eqb_refl. cbn [negb].
      subst fileHashes. by rewrite hashed_files_verify.
    + intros Hskill. destruct (Hskills id skill Hskill) as (? & ? & Hv).
      split; [done|]. split; [done|]. rewrite <- Hv. apply verifySkill_lookup.
      cbn [storage skills]. by rewrite lookup_insert_ne.
  - intros id listing Hl. cbn [storage listings] in Hl.
    destruct (Hlistings id listing Hl) as (? & skill & Hs & ?).
    split; [done|]. exists skill. split; [|done].
    cbn [storage skills]. rewrite lookup_insert_ne; [done|]. intros <-. congruence.
  - apply Hreviews.
Qed.

Lemma listSkill_consistent now id asked by_whom mk :
  storage_consistent mk → storage_consistent (snd (listSkill now id asked by_whom mk)).
Proof.
  intros (Hskills & Hlistings & Hreviews). unfold listSkill.
  destruct (skills (storage mk) !! id) as [skill|] eqn:Hskill; [|done].
  destruct (String.eqb_spec (created_by skill) by_whom) as [Hby|Hby]; [|done].
  cbn [negb snd]. split; [|split].
  - intros id' skill' Hs. destruct (Hskills id' skill' Hs) as (? & ? & Hv).
    split; [done|]. split; [done|]. by rewrite <- Hv.
  - intros id' listing. cbn [storage set_storage set_listings listings skills].
    rewrite lookup_insert. case_decide as Hid.
    + subst id'. intros [= <-]. split; [done|]. by exists skill.
    + apply Hlistings.
  - intros id' listing review. cbn [storage set_storage set_listings listings purchases].
    rewrite lookup_insert. case_decide as Hid.
    + intros [= <-]. cbn [reviews]. intros Hin. by apply elem_of_nil in Hin.
    + apply Hreviews.
Qed.

Lemma purchaseSkill_storage now id buyer_key buyer_private_key mk :
  storage
    (snd (purchaseSkill now id buyer_key buyer_private_key mk)) = storage mk
  ∨ ∃ listing purchase,
      listings (storage mk) !! id = Some listing
      ∧ purchase_buyer purchase = buyer_key
      ∧ storage (snd (purchaseSkill now id buyer_key buyer_private_key mk))
        = {| skills := skills (storage mk);
             listings := <[id := count_sale listing]> (listings (storage mk));
             purchases := <[id := (default [] (purchases (storage mk) !! id)
                                   ++ [purchase])%list]> (purchases (storage mk));
             skills_version := skills_version (storage mk) |}.
Proof.
  unfold purchaseSkill.
  destruct (listings (storage mk) !! id) as [listing|] eqn:Hl; [|by left].
  destruct (negb (bool_decide (status listing = active))); [by left|].
  destruct (skills (storage mk) !! id) as [skill|]; [|by left].
  case_decide; [by left|].
  destruct (getAccount buyer_key (market_ledger mk)) as [account|]; [|by left].
  cbv zeta. destruct (applyTransaction _ _ _) as [result ledger'].
  destruct (negb (success result)); [by left|].
  right. eexists listing, _. split; [done|]. split; [|reflexivity]. done.
Qed.

Lemma purchaseSkill_consistent now id buyer_key buyer_private_key mk :
  storage_consistent mk →
  storage_consistent (snd (purchaseSkill now id buyer_key buyer_private_key mk)).
Proof.
  intros (Hskills & Hlistings & Hreviews).
  destruct (purchaseSkill_storage now id buyer_key buyer_private_key mk)
    as [Hsame|(listing & purchase & Hl & _ & Hst)].
  - unfold storage_consistent. rewrite Hsame. split; [|done].
    intros id' skill' Hs. destruct (Hskills id' skill' Hs) as (? & ? & Hv).
    split; [done|]. split; [done|]. rewrite <- Hv. apply verifySkill_lookup. by rewrite Hsame.
  - unfold storage_consistent. rewrite Hst. cbn [skills listings purchases].
    split; [|split].
    + intros id' skill' Hs. destruct (Hskills id' skill' Hs) as (? & ? & Hv).
      split; [done|]. split; [done|]. rewrite <- Hv. apply verifySkill_lookup. by rewrite Hst.
    + intros id' listing'. rewrite lookup_insert. case_decide as Hid; [|apply Hlistings].
      subst id'. intros [= <-]. apply (Hlistings id listing Hl).
    + intros id' listing' review. rewrite !lookup_insert. case_decide as Hid.
      * subst id'. intros [= <-]. simpl. intros Hin.
        destruct (Hreviews id listing review Hl Hin) as (p & Hp & Hb).
        exists p. split; [|done]. apply elem_of_app. by left.
      * apply Hreviews.
Qed.

Lemma existsb_buyer who (ps : list SkillPurchase) :
  existsb (λ p, String.eqb (purchase_buyer p) who) ps = true →
  ∃ p, p ∈ ps ∧ purchase_buyer p = who.
Proof.
  intros Hex. apply existsb_exists in Hex as (p & Hin & Heq).
  exists p. split; [by apply list_elem_of_In|]. by apply String.eqb_eq.
Qed.

Lemma addReview_consistent now id who stars text mk :
  storage_consistent mk → storage_consistent (snd (addReview now id who stars text mk)).
Proof.
  intros (Hskills & Hlistings & Hreviews). unfold addReview.
  destruct (listings (storage mk) !! id) as [listing|] eqn:Hl; [|done].
  cbv zeta.
  destruct (existsb _ _) eqn:Hbought; [|done]. cbn [negb snd].
  apply existsb_buyer in Hbought as (p & Hp & Hb).
  split; [|split].
  - intros id' skill' Hs. destruct (Hskills id' skill' Hs) as (? & ? & Hv).
    split; [done|]. split; [done|]. by rewrite <- Hv.
  - intros id' listing'. cbn [storage set_storage set_listings listings skills].
    rewrite lookup_insert. case_decide as Hid; [|apply Hlistings].
    subst id'. intros [= <-]. apply (Hlistings id listing Hl).
  - intros id' listing' review. cbn [storage set_storage set_listings listings purchases].
    rewrite lookup_insert. case_decide as Hid; [|apply Hreviews].
    subst id'. intros [= <-]. cbn [add_review reviews]. intros Hin.
    apply elem_of_app in Hin as [Hin|Hin]; [by apply (Hreviews id listing)|].
    apply list_elem_of_singleton in Hin. subst review. by exists p.
Qed.

Lemma delistSkill_consistent id by_whom mk :
  storage_consistent mk → storage_consistent (snd (delistSkill id by_whom mk)).
Proof.
  intros (Hskills & Hlistings & Hreviews). unfold delistSkill.
  destruct (listings (storage mk) !! id) as [listing|] eqn:Hl; [|done].
  destruct (negb (String.eqb (seller listing) by_whom)); [done|]. cbn [snd].
  split; [|split].
  - intros id' skill' Hs. destruct (Hskills id' skill' Hs) as (? & ? & Hv).
    split; [done|]. split; [done|]. by rewrite <- Hv.
  - intros id' listing'. cbn [storage set_storage set_listings listings skills].
    rewrite lookup_insert. case_decide as Hid; [|apply Hlistings].
    subst id'. intros [= <-]. apply (Hlistings id listing Hl).
  - intros id' listing' review. cbn [storage set_storage set_listings listings purchases].
    rewrite lookup_insert. case_decide as Hid; [|apply Hreviews].
    subst id'. intros [= <-]. apply (Hreviews id listing review Hl).
Qed.

Lemma market_step_consistent now c mk :
  storage_consistent mk → storage_consistent (market_step now c mk).
Proof.
  intros Hc. destruct c; cbn [market_step].
  - by apply createSkill_consistent.
  - by apply listSkill_consistent.
  - by apply purchaseSkill_consistent.
  - by apply addReview_consistent.
  - by apply delistSkill_consistent.
  - destruct Hc as (Hskills & Hlistings & Hreviews). split; [|done].
    intros id skill Hs. destruct (Hskills id skill Hs) as (? & ? & Hv).
    split; [done|]. split; [done|]. by rewrite <- Hv.
Qed.

Lemma market_run_consistent calls mk :
  storage_consistent mk → storage_consistent (market_run calls mk).
Proof.
  revert mk. unfold market_run. induction calls as [|[now c] calls IH]; intros mk Hc; [done|].
  cbn [fold_left]. by apply IH, market_step_consistent.
Qed.

Lemma new_marketplace_consistent l ids : storage_consistent (new_marketplace l ids).
Proof. by split; [|split]; intros id x; cbn; rewrite lookup_empty. Qed.

End Market.

Section MarketRuns.
Context `{Crypto} `{Floats}.

(** *** Skills are immutable *)

Lemma market_step_skill_kept now c mk id skill :
  skills (storage mk) !! id = Some skill →
  skills (storage (market_step now c mk)) !! id = Some skill.
Proof.
  intros Hs. destruct c; cbn [market_step].
  - unfold createSkill. cbv zeta. set (h := hashData _).
    destruct (skills (storage mk) !! h) eqn:Hfresh; [done|].
    cbn [snd storage skills]. rewrite lookup_insert_ne; [done|]. intros <-. congruence.
  - unfold listSkill. by repeat case_match.
  - by destruct (purchaseSkill_storage now id0 buyer_key buyer_private_key mk)
      as [->|(? & ? & _ & _ & ->)].
  - unfold addReview. by repeat case_match.
  - unfold delistSkill. by repeat case_match.
  - done.
Qed.

Lemma market_run_skill_kept calls mk id skill :
  skills (storage mk) !! id = Some skill →
  skills (storage (market_run calls mk)) !! id = Some skill.
Proof.
  revert mk. unfold market_run. induction calls as [|[now c] calls IH]; intros mk Hs; [done|].
  cbn [fold_left]. by apply IH, market_step_skill_kept.
Qed.

Lemma createSkill_stored now name description version type fs creator deps lic entry mk :
  success (fst (fst (createSkill now name description version type fs creator deps lic entry
                       mk))) = true →
  ∃ skill,
    snd (fst (createSkill now name description version type fs creator deps lic entry mk))
    = Some skill
    ∧ created_by skill = creator
    ∧ skills (storage (snd (createSkill now name description version type fs creator deps lic
                              entry mk))) !! skill_id skill = Some skill.
Proof.
  unfold createSkill. cbv zeta. set (h := hashData _).
  destruct (skills (storage mk) !! h); [done|]. intros _.
  eexists. split; [reflexivity|]. split; [done|].
  cbn [fst snd storage skills skill_id]. apply lookup_insert_eq.
Qed.

(** X23.  Create, then verify.  A skill that [createSkill] has stored is
    returned to the caller, names its creator, and from then on stays in
    the storage unchanged, where [verifySkill] finds it valid - after any
    further calls to the marketplace and whatever happens to the ledger and
    the identities. *)
Theorem created_skill_keeps_verifying l ids before now name description version type fs
    creator deps lic entry after :
  success (fst (fst (createSkill now name description version type fs creator deps lic entry
                       (market_run before (new_marketplace l ids))))) = true →
  ∃ skill,
    snd (fst (createSkill now name description version type fs creator deps lic entry
                (market_run before (new_marketplace l ids)))) = Some skill
    ∧ created_by skill = creator
    ∧ skills (storage
                (market_run after
                   (snd (createSkill now name description version type fs creator deps lic entry
                           (market_run before (new_marketplace l ids))))))
        !! skill_id skill = Some skill
    ∧ verifySkill (skill_id skill)
        (market_run after
           (snd (createSkill now name description version type fs creator deps lic entry
                   (market_run before (new_marketplace l ids))))) = (true, None).
Proof.
  intros Hok.
  pose proof (createSkill_consistent now name description version type fs creator deps lic entry
                _ (market_run_consistent before _ (new_marketplace_consistent l ids))) as Hc.
  apply (market_run_consistent after) in Hc.
  destruct (createSkill_stored _ _ _ _ _ _ _ _ _ _ _ Hok) as (skill & Hret & Hby & Hstored).
  exists skill. split; [done|]. split; [done|].
  apply (market_run_skill_kept after) in Hstored.
  split; [done|]. by apply Hc in Hstored as (_ & _ & ?).
Qed.

(** *** Listings *)

Lemma applyTransaction_never_skill_not_found now tx st :
  error (fst (applyTransaction now tx st)) ≠ Some "Skill not found".
Proof.
  unfold applyTransaction, validateEconomicConstraints, transfer_block, recorded.
  repeat case_match; simplify_eq; cbn; discriminate.
Qed.

(** X24.  Listings belong to creators.  In every state a marketplace
    reaches from its constructor a listing is stored under the id of a stored
    skill and its seller is that skill's creator; so [purchaseSkill] never
    answers 'Skill not found'. *)
Theorem listings_belong_to_creators l ids calls :
  (∀ id listing,
     listings (storage (market_run calls (new_marketplace l ids))) !! id = Some listing →
     listing_skill_id listing = id
     ∧ ∃ skill, skills (storage (market_run calls (new_marketplace l ids))) !! id = Some skill
                ∧ seller listing = created_by skill)
  ∧ ∀ now id buyer_key buyer_private_key,
      fst (fst (purchaseSkill now id buyer_key buyer_private_key
                  (market_run calls (new_marketplace l ids))))
      ≠ failed "Skill not found".
Proof.
  destruct (market_run_consistent calls _ (new_marketplace_consistent l ids))
    as (_ & Hlistings & _).
  split; [done|].
  intros now id buyer_key buyer_private_key.
  revert Hlistings. generalize (market_run calls (new_marketplace l ids)). intros mk Hlistings.
  unfold purchaseSkill.
  destruct (listings (storage mk) !! id) as [listing|] eqn:Hl; [|done].
  destruct (negb (bool_decide (status listing = active))); [done|].
  destruct (Hlistings id listing Hl) as (_ & skill & -> & _).
  case_decide; [done|].
  destruct (getAccount buyer_key (market_ledger mk)) as [account|]; [|done].
  cbv zeta.
  pose proof (applyTransaction_never_skill_not_found now
                (purchase_of now id buyer_key buyer_private_key skill listing (nonce account))
                (market_ledger mk)) as Herr.
  destruct (applyTransaction _ _ _) as [result ledger'].
  destruct (negb (success result)); [|done].
  cbn [fst] in *. intros [= Heq]. done.
Qed.

(** X25.  Reviews come from buyers.  In every state a marketplace reaches
    from its constructor, each review of a listing is by someone with a
    purchase of that skill on record. *)
Theorem reviews_come_from_buyers l ids calls id listing review :
  listings (storage (market_run calls (new_marketplace l ids))) !! id = Some listing →
  review ∈ reviews listing →
  ∃ purchase,
    purchase ∈ default [] (purchases (storage (market_run calls (new_marketplace l ids))) !! id)
    ∧ purchase_buyer purchase = reviewer review.
Proof.
  destruct (market_run_consistent calls _ (new_marketplace_consistent l ids))
    as (_ & _ & Hreviews).
  apply Hreviews.
Qed.

(** *** Purchases *)

(** X26.  A purchase moves no shells.  When [purchaseSkill] succeeds the
    listing was active, its price is not negative and the buyer held the
    price plus the fee; the purchase is put on record and the sale counted;
    yet every account of the ledger - buyer and seller included, balance and
    nonce alike - is as it was before the call. *)
Theorem purchaseSkill_moves_no_shells now id buyer_key buyer_private_key mk :
  success (fst (fst (purchaseSkill now id buyer_key buyer_private_key mk))) = true →
  accounts (market_ledger (snd (purchaseSkill now id buyer_key buyer_private_key mk)))
  = accounts (market_ledger mk)
  ∧ ∃ listing purchase,
      listings (storage mk) !! id = Some listing
      ∧ status listing = active
      ∧ (0 <= price listing)%Z
      ∧ (price listing + transaction_fee <= getBalance buyer_key (market_ledger mk))%Z
      ∧ listings (storage (snd (purchaseSkill now id buyer_key buyer_private_key mk))) !! id
        = Some (count_sale listing)
      ∧ purchases (storage (snd (purchaseSkill now id buyer_key buyer_private_key mk))) !! id
        = Some (default [] (purchases (storage mk) !! id) ++ [purchase])%list
      ∧ purchase_buyer purchase = buyer_key
      ∧ purchase_seller purchase = seller listing
      ∧ purchase_price purchase = price listing.
Proof.
  unfold purchaseSkill.
  destruct (listings (storage mk) !! id) as [listing|] eqn:Hl; [|done].
  destruct (bool_decide (status listing = active)) eqn:Hactive; [|done]. cbn [negb].
  apply bool_decide_eq_true in Hactive.
  destruct (skills (storage mk) !! id) as [skill|]; [|done].
  case_decide; [done|].
  unfold getAccount, getBalance in *.
  destruct (accounts (market_ledger mk) !! buyer_key) as [account|] eqn:Hacc; [|done].
  cbv zeta.
  set (tx := purchase_of now id buyer_key buyer_private_key skill listing (nonce account)).
  destruct (applyTransaction now tx (market_ledger mk)) as [result ledger'] eqn:Happ.
  destruct (success result) eqn:Hok; [|done]. cbn [negb fst snd success ok]. intros _.
  destruct (applyTransaction_success now tx (market_ledger mk) result ledger' Happ Hok)
    as (sender & accs & (_ & Hs & _ & _ & Heco) & _ & -> & Haccs).
  change (moves_value tx) with false in Haccs. cbv beta iota in Haccs. subst accs.
  change (tx_from tx) with buyer_key in Hs. rewrite Hacc in Hs. injection Hs as <-.
  split; [done|].
  eexists listing, _. cbn [storage listings purchases market_ledger].
  rewrite !lookup_insert_eq.
  split; [done|]. split; [done|].
  revert Heco. unfold validateEconomicConstraints. change (tx_amount tx) with (price listing).
  repeat case_decide; try done. intros _.
  split; [lia|]. split; [lia|]. split; [done|]. split; [reflexivity|]. done.
Qed.

End MarketRuns.

Section Reputation.
Context `{Floats}.

(** X27.  The last update wins.  [updateReputation] replaces the stored
    reputation by the score of the parameters it is given: what an earlier
    update stored has no influence on its result or on the storage it
    leaves, and it changes nothing but the reputation of the one identity,
    so no registration is affected. *)
Theorem updateReputation_forgets_history now0 params0 now pk params st :
  updateReputation now pk params (snd (updateReputation now0 pk params0 st))
  = updateReputation now pk params st
  ∧ (∀ now', isRegistered now' pk (snd (updateReputation now pk params st))
             = isRegistered now' pk st)
  ∧ ∀ other, other ≠ pk →
      bots (snd (updateReputation now pk params st)) !! other = bots st !! other.
Proof.
  unfold updateReputation.
  destruct (bots st !! pk) as [identity|] eqn:Hpk; cbn [snd bots].
  - rewrite lookup_alter_eq, Hpk. cbn. split; [|split].
    + f_equal. f_equal. apply map_eq. intros k.
      destruct (decide (k = pk)) as [->|Hk].
      * by rewrite !lookup_alter_eq, Hpk.
      * by rewrite !lookup_alter_ne.
    + intros now'. unfold isRegistered. cbn [bots]. by rewrite lookup_alter_eq, Hpk.
    + intros other Hother. by rewrite lookup_alter_ne.
  - rewrite Hpk. done.
Qed.

End Reputation.

(** The test skill, still valid after it was listed, bought and reviewed. *)
Lemma created_skill_keeps_verifying_witness :
  ∃ skill,
    snd (fst test_creation) = Some skill
    ∧ created_by skill = creator
    ∧ skills (storage (@market_run ideal_crypto ideal_floats (tail market_calls)
                         (snd test_creation))) !! skill_id skill = Some skill
    ∧ @verifySkill ideal_crypto (skill_id skill)
        (@market_run ideal_crypto ideal_floats (tail market_calls) (snd test_creation))
      = (true, None).
Proof.
  apply (@created_skill_keeps_verifying ideal_crypto ideal_floats marketplace_ledger
           empty_identities [] 1699999999000 "TestSkill" "A test skill" "1.0.0" type_skill
           [("index.js", "module.exports = {};")] creator [] MIT None (tail market_calls)).
  vm_compute. reflexivity.
Defined.

Lemma reviews_come_from_buyers_witness :
  ∃ purchase,
    purchase ∈ default []
      (purchases (storage (@market_run ideal_crypto ideal_floats market_calls
                             (new_marketplace marketplace_ledger empty_identities)))
         !! test_skill_id)
    ∧ purchase_buyer purchase = reviewer good_review.
Proof.
  apply (@reviews_come_from_buyers ideal_crypto ideal_floats marketplace_ledger empty_identities
           market_calls test_skill_id reviewed_listing good_review).
  - vm_compute. reflexivity.
  - apply list_elem_of_here.
Defined.

(** The buyer keeps 1000 shells after buying the skill listed at 50. *)
Lemma purchaseSkill_moves_no_shells_witness :
  getBalance buyer
    (market_ledger
       (snd (@purchaseSkill ideal_crypto ideal_floats 1700000001000 test_skill_id buyer "buyer"
               listed))) = 1000
  ∧ accounts
      (market_ledger
         (snd (@purchaseSkill ideal_crypto ideal_floats 1700000001000 test_skill_id buyer
                 "buyer" listed)))
    = accounts (market_ledger listed).
Proof.
  split; [vm_compute; reflexivity|].
  refine (proj1 (@purchaseSkill_moves_no_shells ideal_crypto ideal_floats 1700000001000
                   test_skill_id buyer "buyer" listed _)).
  vm_compute. reflexivity.
Defined.
